(** * Agentic voice console: chat and design gateways, session controller

    A shallow embedding of the two route handlers ([api/chat], [api/design])
    and of the client-side session controller ([handleSubmit],
    [handleDesignSynthesis]), with the properties the specification states
    about them.

    Strings are sequences of code units; the model carries the code units
    0..255 as [ascii].  Platform functions whose behaviour the handlers rely
    on ([trim], [toUpperCase], [join], [slice]) are written out in module
    [Js], a reader for JSON texts in module [Json]; the properties of the
    response interpreter hold for every [JSON.parse].  The handlers
    themselves follow the source line by line. *)

From Stdlib Require Import String Ascii List Bool Arith Lia ZArith Sorted.
Import ListNotations.
Local Open Scope list_scope.
Local Open Scope string_scope.
Set Warnings "-register-all,-notation-for-abbreviation".

(** ** Platform functions *)

Module Js.

(** The line feed and the double quote, which the templates and the JSON
    texts need. *)
Definition LF : string := String "010"%char "".
Definition DQ : string := String "034"%char "".

(** A string between double quotes, as it is written in a JSON text. *)
Definition quoted (s : string) : string := DQ ++ s ++ DQ.

(** [!s] is false exactly for the non-empty string. *)
Definition truthy (s : string) : bool :=
  match s with
  | EmptyString => false
  | String _ _ => true
  end.

(** [a || b] on strings. *)
Definition or_else (a b : string) : string := if truthy a then a else b.

(** [a ?? b]: the default replaces only an absent value. *)
Definition nullish {A : Type} (a : option A) (b : A) : A :=
  match a with
  | Some x => x
  | None => b
  end.

(** WhiteSpace and LineTerminator code units below 256: TAB, LF, VT, FF, CR,
    SP and NBSP. *)
Definition isWhiteSpace (c : ascii) : bool :=
  let n := nat_of_ascii c in
  ((n =? 9) || (n =? 10) || (n =? 11) || (n =? 12) || (n =? 13)
   || (n =? 32) || (n =? 160))%nat.

Fixpoint trimStart (s : string) : string :=
  match s with
  | EmptyString => EmptyString
  | String c rest => if isWhiteSpace c then trimStart rest else s
  end.

Fixpoint trimEnd (s : string) : string :=
  match s with
  | EmptyString => EmptyString
  | String c rest =>
      match trimEnd rest with
      | EmptyString => if isWhiteSpace c then EmptyString else String c EmptyString
      | kept => String c kept
      end
  end.

(** [String.prototype.trim]. *)
Definition trim (s : string) : string := trimEnd (trimStart s).

(** Every code unit of the string is white space (the empty string
    included). *)
Fixpoint blank (s : string) : bool :=
  match s with
  | EmptyString => true
  | String c rest => isWhiteSpace c && blank rest
  end.



(** [String.prototype.toUpperCase] on the letters a..z; code units outside
    ASCII are left as they are. *)
Definition upperChar (c : ascii) : ascii :=
  let n := nat_of_ascii c in
  if ((97 <=? n) && (n <=? 122))%nat then ascii_of_nat (n - 32) else c.

Fixpoint toUpperCase (s : string) : string :=
  match s with
  | EmptyString => EmptyString
  | String c rest => String (upperChar c) (toUpperCase rest)
  end.

(** [Array.prototype.join] on an array of strings. *)
Fixpoint join (sep : string) (items : list string) : string :=
  match items with
  | [] => ""
  | [x] => x
  | x :: rest => x ++ sep ++ join sep rest
  end.

(** [Array.prototype.slice(start)] with a negative [start]: the last
    [count] elements, the whole array when it is shorter. *)
Definition sliceLast {A : Type} (count : nat) (items : list A) : list A :=
  skipn (length items - count) items.

(** [String.prototype.includes]. *)
Fixpoint startsWith (s prefix : string) : bool :=
  match prefix, s with
  | EmptyString, _ => true
  | String p prefix', String c s' => Ascii.eqb p c && startsWith s' prefix'
  | String _ _, EmptyString => false
  end.

Fixpoint includes (s needle : string) : bool :=
  startsWith s needle ||
  match s with
  | EmptyString => false
  | String _ rest => includes rest needle
  end.

End Js.

(** ** JSON values and [JSON.parse] *)

Module Json.

(** A value as [JSON.parse] yields it.  A number keeps the decimal it was
    written as, [mantissa * 10 ^ exponent].  An object keeps its members in
    the order of the text; a later member overrides an earlier one of the
    same name. *)
Inductive JsValue : Type :=
| JNull
| JBool (b : bool)
| JNumber (mantissa exponent : Z)
| JString (s : string)
| JArray (items : list JsValue)
| JObject (members : list (string * JsValue)).

(** The value as a condition: [null], [false], [0] and the empty string are
    false. *)
Definition truthy (v : JsValue) : bool :=
  match v with
  | JNull => false
  | JBool b => b
  | JNumber m _ => negb (m =? 0)%Z
  | JString s => Js.truthy s
  | JArray _ => true
  | JObject _ => true
  end.

Fixpoint member (key : string) (members : list (string * JsValue))
  : option JsValue :=
  match members with
  | [] => None
  | (k, v) :: rest =>
      match member key rest with
      | Some later => Some later
      | None => if String.eqb k key then Some v else None
      end
  end.

(** [v.key] for the two keys the handler reads; [None] is [undefined].  A
    number, a boolean, a string or an array has no such property. *)
Definition prop (v : JsValue) (key : string) : option JsValue :=
  match v with
  | JObject members => member key members
  | _ => None
  end.

(** [typeof x === "string"], with the string it then is. *)
Definition asString (x : option JsValue) : option string :=
  match x with
  | Some (JString s) => Some s
  | _ => None
  end.

(** *** A reader for JSON texts *)

Definition isJsonSpace (c : ascii) : bool :=
  let n := nat_of_ascii c in
  ((n =? 9) || (n =? 10) || (n =? 13) || (n =? 32))%nat.

Fixpoint skipSpace (s : string) : string :=
  match s with
  | EmptyString => EmptyString
  | String c rest => if isJsonSpace c then skipSpace rest else s
  end.

Definition digitValue (c : ascii) : option nat :=
  let n := nat_of_ascii c in
  if ((48 <=? n) && (n <=? 57))%nat then Some (n - 48) else None.

Definition hexValue (c : ascii) : option nat :=
  let n := nat_of_ascii c in
  if ((48 <=? n) && (n <=? 57))%nat then Some (n - 48)
  else if ((65 <=? n) && (n <=? 70))%nat then Some (n - 55)
  else if ((97 <=? n) && (n <=? 102))%nat then Some (n - 87)
  else None.

(** The character a one-letter escape stands for. *)
Definition unescape (c : ascii) : option ascii :=
  if Ascii.eqb c "034" then Some "034"%char
  else if Ascii.eqb c "\" then Some "\"%char
  else if Ascii.eqb c "/" then Some "/"%char
  else if Ascii.eqb c "b" then Some "008"%char
  else if Ascii.eqb c "f" then Some "012"%char
  else if Ascii.eqb c "n" then Some "010"%char
  else if Ascii.eqb c "r" then Some "013"%char
  else if Ascii.eqb c "t" then Some "009"%char
  else None.

(** The four hex digits of a [\u] escape; a code unit above 255 is outside
    the alphabet of the model and is refused. *)
Definition hex4 (a b c d : ascii) : option ascii :=
  match hexValue a, hexValue b, hexValue c, hexValue d with
  | Some 0, Some 0, Some h, Some l => Some (ascii_of_nat (16 * h + l))
  | _, _, _, _ => None
  end.

(** The characters of a string literal after its opening quote, up to and
    including the closing quote. *)
Fixpoint readChars (s : string) : option (string * string) :=
  match s with
  | EmptyString => None
  | String c rest =>
      if Ascii.eqb c "034" then Some ("", rest)
      else if Ascii.eqb c "\" then
        match rest with
        | String e rest1 =>
            match unescape e with
            | Some d =>
                match readChars rest1 with
                | Some (str, after) => Some (String d str, after)
                | None => None
                end
            | None =>
                if Ascii.eqb e "u" then
                  match rest1 with
                  | String h1 (String h2 (String h3 (String h4 rest5))) =>
                      match hex4 h1 h2 h3 h4 with
                      | Some d =>
                          match readChars rest5 with
                          | Some (str, after) => Some (String d str, after)
                          | None => None
                          end
                      | None => None
                      end
                  | _ => None
                  end
                else None
            end
        | EmptyString => None
        end
      else if (nat_of_ascii c <? 32)%nat then None
      else
        match readChars rest with
        | Some (str, after) => Some (String c str, after)
        | None => None
        end
  end.

(** A run of decimal digits: its value, its length and what follows. *)
Fixpoint readDigits (s : string) (value : Z) (count : nat)
  : Z * nat * string :=
  match s with
  | EmptyString => (value, count, s)
  | String c rest =>
      match digitValue c with
      | Some d => readDigits rest (10 * value + Z.of_nat d)%Z (S count)
      | None => (value, count, s)
      end
  end.

(** The integer part: a single [0], or digits that do not start with [0]. *)
Definition readInt (s : string) : option (Z * string) :=
  match s with
  | String c rest =>
      match digitValue c with
      | Some 0 => Some (0%Z, rest)
      | Some d => let '(v, _, after) := readDigits rest (Z.of_nat d) 1 in
                  Some (v, after)
      | None => None
      end
  | EmptyString => None
  end.

Definition readFraction (s : string) (int : Z) : option (Z * nat * string) :=
  match s with
  | String "." rest =>
      match readDigits rest int 0 with
      | (_, 0, _) => None
      | (v, places, after) => Some (v, places, after)
      end
  | _ => Some (int, 0, s)
  end.

Definition readExponent (s : string) : option (Z * string) :=
  match s with
  | String c rest =>
      if Ascii.eqb c "e" || Ascii.eqb c "E" then
        let '(negative, digits) :=
          match rest with
          | String "-" r => (true, r)
          | String "+" r => (false, r)
          | _ => (false, rest)
          end in
        match readDigits digits 0%Z 0 with
        | (_, 0, _) => None
        | (v, _, after) => Some (if negative then (- v)%Z else v, after)
        end
      else Some (0%Z, s)
  | EmptyString => Some (0%Z, s)
  end.

Definition readNumber (s : string) : option (JsValue * string) :=
  let '(negative, body) :=
    match s with
    | String "-" r => (true, r)
    | _ => (false, s)
    end in
  match readInt body with
  | None => None
  | Some (int, after_int) =>
      match readFraction after_int int with
      | None => None
      | Some (digits, places, after_frac) =>
          match readExponent after_frac with
          | None => None
          | Some (e, after) =>
              Some (JNumber (if negative then (- digits)%Z else digits)
                            (e - Z.of_nat places)%Z, after)
          end
      end
  end.

Definition readWord (word : string) (v : JsValue) (s : string)
  : option (JsValue * string) :=
  if Js.startsWith s word
  then Some (v, substring (String.length word)
                          (String.length s - String.length word) s)
  else None.

Fixpoint readValue (fuel : nat) (s : string) : option (JsValue * string) :=
  match fuel with
  | 0 => None
  | S fuel' =>
      match skipSpace s with
      | String "{" rest =>
          match skipSpace rest with
          | String "}" after => Some (JObject [], after)
          | _ => readMembers fuel' rest []
          end
      | String "[" rest =>
          match skipSpace rest with
          | String "]" after => Some (JArray [], after)
          | _ => readItems fuel' rest []
          end
      | String "034" rest =>
          match readChars rest with
          | Some (str, after) => Some (JString str, after)
          | None => None
          end
      | String "t" _ as w => readWord "true" (JBool true) w
      | String "f" _ as w => readWord "false" (JBool false) w
      | String "n" _ as w => readWord "null" JNull w
      | other => readNumber other
      end
  end

with readItems (fuel : nat) (s : string) (seen : list JsValue)
  : option (JsValue * string) :=
  match fuel with
  | 0 => None
  | S fuel' =>
      match readValue fuel' s with
      | None => None
      | Some (v, after) =>
          match skipSpace after with
          | String "," more => readItems fuel' more (seen ++ [v])
          | String "]" rest => Some (JArray (seen ++ [v]), rest)
          | _ => None
          end
      end
  end

with readMembers (fuel : nat) (s : string) (seen : list (string * JsValue))
  : option (JsValue * string) :=
  match fuel with
  | 0 => None
  | S fuel' =>
      match skipSpace s with
      | String "034" rest =>
          match readChars rest with
          | None => None
          | Some (key, after_key) =>
              match skipSpace after_key with
              | String ":" body =>
                  match readValue fuel' body with
                  | None => None
                  | Some (v, after) =>
                      match skipSpace after with
                      | String "," more =>
                          readMembers fuel' more (seen ++ [(key, v)])
                      | String "}" rest =>
                          Some (JObject (seen ++ [(key, v)]), rest)
                      | _ => None
                      end
                  end
              | _ => None
              end
          end
      | _ => None
      end
  end.

(** [JSON.parse]: the value of the whole text, [None] where it throws a
    [SyntaxError]. *)
Definition parse (text : string) : option JsValue :=
  match readValue (2 * String.length text + 2) text with
  | Some (v, after) =>
      match skipSpace after with
      | EmptyString => Some v
      | String _ _ => None
      end
  | None => None
  end.

End Json.

(** ** What the two route handlers share *)

Module Gateway.

Import Js Json.

(** [process.env], as far as the handlers read it. *)
Record Env : Type := {
  GEMINI_API_KEY : option string;
  GEMINI_MODEL : option string;
  GEMINI_API_BASE : option string
}.

(** [!process.env.GEMINI_API_KEY] is false exactly for a non-empty key. *)
Definition configured (key : option string) : bool :=
  match key with
  | Some k => Js.truthy k
  | None => false
  end.

Record Turn : Type := { role : string; content : string }.

(** The nested shape of the upstream payload; every member is optional. *)
Module Gemini.
Record Part : Type := { text : option string }.
Record Content : Type := { parts : option (list Part) }.
Record Candidate : Type := { content : option Content }.
Record Payload : Type := { candidates : option (list Candidate) }.
End Gemini.

Definition GeminiPart : Type := Gemini.Part.
Definition GeminiContent : Type := Gemini.Content.
Definition GeminiCandidate : Type := Gemini.Candidate.
Definition GeminiResponse : Type := Gemini.Payload.

(** [encodeURIComponent]: the unreserved characters stay, every other code
    unit is written as the percent-escaped bytes of its UTF-8 form. *)
Definition unreserved (c : ascii) : bool :=
  let n := nat_of_ascii c in
  (((48 <=? n) && (n <=? 57)) || ((65 <=? n) && (n <=? 90))
   || ((97 <=? n) && (n <=? 122)))%nat
  || Js.includes "-_.!~*'()" (String c "").

Definition hexDigit (n : nat) : ascii :=
  ascii_of_nat (if (n <? 10)%nat then 48 + n else 55 + n).

Definition percent (byte : nat) : string :=
  String "%" (String (hexDigit (byte / 16)) (String (hexDigit (byte mod 16)) "")).

Fixpoint encodeURIComponent (s : string) : string :=
  match s with
  | EmptyString => EmptyString
  | String c rest =>
      let n := nat_of_ascii c in
      (if unreserved c then String c ""
       else if (n <? 128)%nat then percent n
       else percent (192 + n / 64) ++ percent (128 + n mod 64))
      ++ encodeURIComponent rest
  end.

(** The argument of [fetch]: the address and the object that
    [JSON.stringify] writes into the body. *)
Record Call : Type := { url : string; method : string; body : JsValue }.

(** What awaiting the parts of an upstream response yields: [bodyText] is
    [response.text()], [bodyJson] is [response.json()], [None] where that
    promise rejects. *)
Record Response : Type := {
  ok : bool;
  status : nat;
  bodyText : string;
  bodyJson : option GeminiResponse
}.

(** A handler up to its answer: it returns, it throws, or it awaits a
    [fetch], which yields a response or rejects ([None]). *)
Inductive Task (A : Type) : Type :=
| Return (a : A)
| Throw
| Fetch (call : Call) (next : option Response -> Task A).

Arguments Return {A} a.
Arguments Throw {A}.
Arguments Fetch {A} call next.

(** Running a handler against an upstream service: the answer ([None] when
    the handler throws) and the calls made, in order. *)
Fixpoint run {A : Type} (upstream : Call -> option Response) (t : Task A)
  : option A * list Call :=
  match t with
  | Return a => (Some a, [])
  | Throw => (None, [])
  | Fetch call next =>
      let '(answer, calls) := run upstream (next (upstream call)) in
      (answer, call :: calls)
  end.

(** The bodies the handlers pass to [NextResponse.json]; a member whose
    value is [undefined] is not written and is [None] here. *)
Inductive Body : Type :=
| ErrorBody (error : string) (detail : option string)
| ReplyBody (reply : string) (plan : option string)
| ProposalBody (proposal : string).

Record NextResponse : Type := { code : nat; payload : Body }.

Definition json (b : Body) (status : nat) : NextResponse :=
  {| code := status; payload := b |}.

Definition DEFAULT_API_BASE : string :=
  "https://generativelanguage.googleapis.com/v1beta/models".

(** The first element of the array destructuring [const [candidate] = ...]. *)
Definition first {A : Type} (items : list A) : option A :=
  match items with
  | [] => None
  | x :: _ => Some x
  end.

(** [extractText], the same function in both routes. *)
Definition extractText (payload : GeminiResponse) : string :=
  match first (nullish (Gemini.candidates payload) []) with
  | Some {| Gemini.content := Some {| Gemini.parts := Some ps |} |} =>
      join "" (map (fun part => nullish (Gemini.text part) "") ps)
  | _ => ""
  end.

(** One line of the transcript, [`${turn.role.toUpperCase()}: ${turn.content}`]. *)
Definition line (turn : Turn) : string :=
  toUpperCase (role turn) ++ ": " ++ content turn.




(** The request to the model endpoint, with the prompt as its only part. *)
Definition generateContent (env : Env) (model prompt : string)
    (temperature topP topK : JsValue) : Call :=
  {| url := nullish (GEMINI_API_BASE env) DEFAULT_API_BASE ++ "/"
            ++ encodeURIComponent model ++ ":generateContent?key="
            ++ nullish (GEMINI_API_KEY env) "undefined";
     method := "POST";
     body := JObject
       [("contents",
         JArray [JObject [("role", JString "user");
                          ("parts", JArray [JObject [("text", JString prompt)]])]]);
        ("generationConfig",
         JObject [("temperature", temperature); ("topP", topP); ("topK", topK)])]
  |}.

End Gateway.

(** ** The chat route *)

Module Chat.

Import Js Json Gateway.

Record ChatRequest : Type := {
  message : option string;
  modeId : option string;
  systemPrompt : option string;
  conversation : option (list Turn)
}.

Definition GEMINI_MODEL (env : Env) : string :=
  nullish (Gateway.GEMINI_MODEL env) "gemini-1.5-flash".

Definition MISSING_KEY : string :=
  "Missing GEMINI_API_KEY environment variable. Add it to Vercel and local .env to enable live agent calls.".

Definition NO_MESSAGE : string := "Gemini did not return a message.".

(** The template literal of the prompt, before [.trim()]: the lines above
    the transcript, the transcript, the lines below it. *)
Definition linesAbove (modeId systemPrompt : option string) : list string :=
  [ "You are operating the Gemini Live Agentic console.";
    "Mode ID: " ++ nullish modeId "unknown";
    "System Instructions:";
    nullish systemPrompt "Maintain a helpful, agentic tone and expand user ideas.";
    "";
    "Transcript so far:" ].

Definition linesBelow (message : string) : list string :=
  [ "";
    "New live user utterance:";
    message;
    "";
    "Respond with strict JSON that matches:";
    "{";
    "  " ++ quoted "reply" ++ ": " ++ quoted "string" ++ ",";
    "  " ++ quoted "plan" ++ ": "
      ++ quoted "optional string describing next agentic actions, formatted in markdown bullet points if present";
    "}" ].

Definition userPromptTemplate (modeId systemPrompt : option string)
    (transcript message : string) : string :=
  LF ++ join LF (linesAbove modeId systemPrompt ++ transcript :: linesBelow message)
  ++ LF.

Definition transcriptOf (conversation : list Turn) : string :=
  join LF (map line conversation).

Definition userPrompt (request : ChatRequest) (message : string) : string :=
  trim (userPromptTemplate (modeId request) (systemPrompt request)
          (transcriptOf (nullish (conversation request) [])) message).

Section Interpreter.

(** [JSON.parse]: the value of a text, [None] where it throws. *)
Variable JSON_parse : string -> option JsValue.

Definition safeJsonParse (value : string) : JsValue :=
  match JSON_parse value with
  | Some v => v
  | None => JNull
  end.

(** The end of [POST], from the extracted text to the answer. *)
Definition respond (rawText : string) : NextResponse :=
  let parsed := safeJsonParse rawText in
  match (if Json.truthy parsed then asString (prop parsed "reply") else None) with
  | Some reply => json (ReplyBody reply (asString (prop parsed "plan"))) 200
  | None => json (ReplyBody (or_else rawText NO_MESSAGE) None) 200
  end.

(** [POST]; [request] is what [request.json()] yields, [None] where it
    rejects. *)
Definition POST (env : Env) (request : option ChatRequest) : Task NextResponse :=
  if negb (configured (GEMINI_API_KEY env)) then
    Return (json (ErrorBody MISSING_KEY None) 500)
  else
    match request with
    | None => Throw
    | Some body =>
        match message body with
        | None => Return (json (ErrorBody "Message is required." None) 400)
        | Some message =>
            if negb (Js.truthy (trim message)) then
              Return (json (ErrorBody "Message is required." None) 400)
            else
              Fetch (generateContent env (GEMINI_MODEL env) (userPrompt body message)
                       (JNumber 7 (-1)) (JNumber 9 (-1)) (JNumber 40 0))
                (fun response =>
                   match response with
                   | None => Throw
                   | Some response =>
                       if negb (ok response) then
                         Return (json (ErrorBody "Gemini API error"
                                         (Some (bodyText response)))
                                      (status response))
                       else
                         match bodyJson response with
                         | None => Throw
                         | Some payload => Return (respond (extractText payload))
                         end
                   end)
        end
    end.

End Interpreter.

End Chat.

(** ** The design route *)

Module Design.

Import Js Json Gateway.

Record DesignRequest : Type := {
  modeId : option string;
  notes : option string;
  transcript : option (list Turn)
}.

Definition MODEL (env : Env) : string :=
  nullish (Gateway.GEMINI_MODEL env) "gemini-1.5-flash".

Definition MISSING_KEY : string :=
  "Missing GEMINI_API_KEY environment variable. Add it to use the design autopilot.".

Definition summaryOf (transcript : list Turn) : string :=
  join LF (map line transcript).

(** The template literal of the prompt, before [.trim()]: the lines above
    the transcript, the transcript or its placeholder, the lines below it. *)
Definition linesAbove (modeId : option string) : list string :=
  [ "You are the autonomous design autopilot for a Gemini Live mobile agent.";
    "Assess the current session for mode " ++ quoted (nullish modeId "unspecified") ++ ".";
    "";
    "Context transcript:" ].

Definition linesBelow (notes : option string) : list string :=
  [ "";
    "Additional operator notes:";
    or_else (nullish notes "") "No extra notes.";
    "";
    "Output a crisp roadmap covering:";
    "1. UI/interaction adjustments (max 3 bullets)";
    "2. New or upgraded modes, including names and signature behaviors";
    "3. Integration or MCP connector opportunities with validation steps";
    "";
    "Return markdown no longer than 220 words. Lean into agentic, actionable language." ].

Definition autopilotPromptTemplate (modeId : option string)
    (summary : string) (notes : option string) : string :=
  LF ++ join LF (linesAbove modeId
                 ++ or_else summary "No conversation captured." :: linesBelow notes)
  ++ LF.

Definition autopilotPrompt (request : DesignRequest) : string :=
  trim (autopilotPromptTemplate (modeId request)
          (summaryOf (nullish (transcript request) [])) (notes request)).

(** [POST]; [request] is what [request.json()] yields, [None] where it
    rejects. *)
Definition POST (env : Env) (request : option DesignRequest) : Task NextResponse :=
  if negb (configured (GEMINI_API_KEY env)) then
    Return (json (ErrorBody MISSING_KEY None) 500)
  else
    match request with
    | None => Throw
    | Some body =>
        Fetch (generateContent env (MODEL env) (autopilotPrompt body)
                 (JNumber 6 (-1)) (JNumber 8 (-1)) (JNumber 32 0))
          (fun response =>
             match response with
             | None => Throw
             | Some response =>
                 if negb (ok response) then
                   Return (json (ErrorBody "Gemini design autopilot error"
                                   (Some (bodyText response)))
                                (status response))
                 else
                   match bodyJson response with
                   | None => Throw
                   | Some payload => Return (json (ProposalBody (extractText payload)) 200)
                   end
             end)
    end.

End Design.

(** ** The session controller *)

Module Session.

Import Js.

Inductive Role : Type := user | assistant | system.

(** The role as it is written on the wire. *)
Definition roleName (r : Role) : string :=
  match r with
  | user => "user"
  | assistant => "assistant"
  | system => "system"
  end.

Record Message : Type := {
  id : string;
  role : Role;
  content : string;
  createdAt : Z;
  modeId : string
}.

Module Capability.
Record ModeCapability : Type := { id : string; label : string; detail : string }.
End Capability.

Module Mode.
Record Mode : Type := {
  id : string;
  name : string;
  accent : string;
  description : string;
  systemPrompt : string;
  capabilities : list Capability.ModeCapability;
  voice : option string
}.
End Mode.

(** The state the component keeps with [useState]. *)
Record State : Type := {
  modes : list Mode.Mode;
  currentModeId : string;
  messages : list Message;
  pendingInput : string;
  isStreaming : bool;
  designNotes : string;
  designOutput : option string;
  designLoading : bool
}.

Definition setCurrentModeId (value : string) (s : State) : State :=
  {| modes := modes s; currentModeId := value; messages := messages s;
     pendingInput := pendingInput s; isStreaming := isStreaming s;
     designNotes := designNotes s; designOutput := designOutput s;
     designLoading := designLoading s |}.

Definition setMessages (update : list Message -> list Message) (s : State) : State :=
  {| modes := modes s; currentModeId := currentModeId s;
     messages := update (messages s);
     pendingInput := pendingInput s; isStreaming := isStreaming s;
     designNotes := designNotes s; designOutput := designOutput s;
     designLoading := designLoading s |}.

Definition setPendingInput (value : string) (s : State) : State :=
  {| modes := modes s; currentModeId := currentModeId s; messages := messages s;
     pendingInput := value; isStreaming := isStreaming s;
     designNotes := designNotes s; designOutput := designOutput s;
     designLoading := designLoading s |}.

Definition setIsStreaming (value : bool) (s : State) : State :=
  {| modes := modes s; currentModeId := currentModeId s; messages := messages s;
     pendingInput := pendingInput s; isStreaming := value;
     designNotes := designNotes s; designOutput := designOutput s;
     designLoading := designLoading s |}.

Definition setDesignNotes (value : string) (s : State) : State :=
  {| modes := modes s; currentModeId := currentModeId s; messages := messages s;
     pendingInput := pendingInput s; isStreaming := isStreaming s;
     designNotes := value; designOutput := designOutput s;
     designLoading := designLoading s |}.

Definition setDesignOutput (value : option string) (s : State) : State :=
  {| modes := modes s; currentModeId := currentModeId s; messages := messages s;
     pendingInput := pendingInput s; isStreaming := isStreaming s;
     designNotes := designNotes s; designOutput := value;
     designLoading := designLoading s |}.

Definition setDesignLoading (value : bool) (s : State) : State :=
  {| modes := modes s; currentModeId := currentModeId s; messages := messages s;
     pendingInput := pendingInput s; isStreaming := isStreaming s;
     designNotes := designNotes s; designOutput := designOutput s;
     designLoading := value |}.

(** [modes.find((mode) => mode.id === currentModeId) ?? modes[0]]. *)
Definition currentMode (s : State) : option Mode.Mode :=
  match find (fun mode => String.eqb (Mode.id mode) (currentModeId s)) (modes s) with
  | Some mode => Some mode
  | None => Gateway.first (modes s)
  end.

(** The messages shown: those of the current mode. *)
Definition modeMessages (s : State) : list Message :=
  filter (fun message => String.eqb (modeId message) (currentModeId s)) (messages s).

(** [(entry) => ({ role: entry.role, content: entry.content })]. *)
Definition turnOf (entry : Message) : Gateway.Turn :=
  {| Gateway.role := roleName (role entry); Gateway.content := content entry |}.

(** A request of the page to one of its routes. *)
Inductive Request : Type :=
| ChatCall (controller : nat) (payload : Chat.ChatRequest)
| DesignCall (payload : Design.DesignRequest).

(** What the page does to the world outside its state, in order. *)
Inductive Effect : Type :=
| Abort (controller : nat)
| Send (request : Request)
| Speak (utterance : string).

(** A suspended call: [handleSubmit] keeps its abort controller and the mode
    it was started in, [handleDesignSynthesis] is known by its ticket. *)
Inductive Flight : Type :=
| ChatFlight (controller : nat) (startedIn : string)
| DesignFlight (ticket : nat).

(** A value thrown: an [Error] with its message, or something else. *)
Inductive Thrown : Type :=
| ErrorWith (message : string)
| NotAnError.

(** How an awaited request ends: [fetch] rejects, the response is not ok,
    reading its body rejects, or the body arrives. *)
Inductive Outcome (A : Type) : Type :=
| Rejected (e : Thrown)
| NotOk (statusText : string)
| BodyRejected (e : Thrown)
| Resolved (a : A).

Arguments Rejected {A} e.
Arguments NotOk {A} statusText.
Arguments BodyRejected {A} e.
Arguments Resolved {A} a.

Record ChatReply : Type := { reply : string; plan : option string }.

(** The page: its state, the two refs of the chat path, the suspended calls,
    the effects so far, and how often [buildId] and [Date.now] were called. *)
Record World : Type := {
  ui : State;
  recorderAbortRef : option nat;
  controllers : nat;
  inflight : list Flight;
  effects : list Effect;
  uuids : nat;
  ticks : nat
}.

Definition isAbort (controller : nat) (e : Effect) : bool :=
  match e with
  | Abort c => Nat.eqb c controller
  | _ => false
  end.

(** [signal.aborted] of a controller. *)
Definition aborted (controller : nat) (w : World) : bool :=
  existsb (isAbort controller) (effects w).

(** The requests issued so far. *)
Fixpoint sent (log : list Effect) : list Request :=
  match log with
  | [] => []
  | Send r :: rest => r :: sent rest
  | _ :: rest => sent rest
  end.

Definition isChatFlight (controller : nat) (f : Flight) : bool :=
  match f with
  | ChatFlight c _ => Nat.eqb c controller
  | DesignFlight _ => false
  end.

Definition isDesignFlight (ticket : nat) (f : Flight) : bool :=
  match f with
  | ChatFlight _ _ => false
  | DesignFlight t => Nat.eqb t ticket
  end.

Definition startedIn (f : Flight) : string :=
  match f with
  | ChatFlight _ mode => mode
  | DesignFlight _ => ""
  end.

Definition landed (which : Flight -> bool) (flights : list Flight) : list Flight :=
  filter (fun f => negb (which f)) flights.

(** The abort controllers of the suspended chat calls. *)
Definition pilot (f : Flight) : list nat :=
  match f with
  | ChatFlight c _ => [c]
  | DesignFlight _ => []
  end.

Definition pilots (flights : list Flight) : list nat := flat_map pilot flights.

(** The bookkeeping of the chat path: every suspended chat call has a
    controller of its own that was created before, and each of them is
    either the one in [recorderAbortRef] or aborted. *)
Record Tidy (w : World) : Prop := {
  tidy_known : forall c, In c (pilots (inflight w)) -> c < controllers w;
  tidy_unique : NoDup (pilots (inflight w));
  tidy_live : forall c, In c (pilots (inflight w)) ->
              recorderAbortRef w = Some c \/ aborted c w = true
}.

Definition defaultModes : list Mode.Mode :=
  [
    {| Mode.id := "research-navigator";
       Mode.name := "Research Navigator";
       Mode.accent := "from-emerald-400 to-cyan-500";
       Mode.description :=
         "Synthesizes live research, MCP knowledge bases, and streaming docs to answer with citations and action items.";
       Mode.systemPrompt :=
         "You are Research Navigator, an always-on research lieutenant. Maintain accurate citations, cite sources inline when possible, and surface unknowns that need human validation. Ask clarifying questions if scope is ambiguous.";
       Mode.capabilities :=
         [
           {| Capability.id := "live-research";
              Capability.label := "Live Research";
              Capability.detail := "Streams in-progress findings and linkouts." |};
           {| Capability.id := "citation-guard";
              Capability.label := "Citation Guard";
              Capability.detail := "Auto-cites MCP evidence and flags low-confidence claims." |};
           {| Capability.id := "huddle-sync";
              Capability.label := "Huddle Sync";
              Capability.detail := "Summarizes team huddles into MCP knowledge updates." |} ];
       Mode.voice := None |};
    {| Mode.id := "creative-director";
       Mode.name := "Creative Director";
       Mode.accent := "from-fuchsia-400 to-violet-500";
       Mode.description :=
         "Co-designs visuals, voiceovers, and layout updates in real time with Gemini multimodal responses.";
       Mode.systemPrompt :=
         "You are Creative Director Mode. Lead with bold creative direction, propose high-impact campaigns, and provide quick mood-board descriptions. Suggest UI rewrites that keep the agentic design cohesive.";
       Mode.capabilities :=
         [
           {| Capability.id := "layout-shaper";
              Capability.label := "Layout Sculptor";
              Capability.detail := "Suggests responsive layout changes and component swaps." |};
           {| Capability.id := "palette-propulsion";
              Capability.label := "Palette Propulsion";
              Capability.detail := "Explores gradients, depth lighting, and glassmorphism." |};
           {| Capability.id := "voiceover-lab";
              Capability.label := "Voiceover Lab";
              Capability.detail := "Drafts scripts and performance notes for speech playback." |} ];
       Mode.voice := None |};
    {| Mode.id := "flow-coach";
       Mode.name := "Flow Coach";
       Mode.accent := "from-amber-400 to-rose-500";
       Mode.description :=
         "Guides rituals, habits, and operational handoffs with multi-turn planning and gentle accountability.";
       Mode.systemPrompt :=
         "You are Flow Coach Mode. Coach with empathy, structure action plans, offer check-ins, and adapt cadence per user energy. Sustain agentic tone and suggest automations when a task repeats.";
       Mode.capabilities :=
         [
           {| Capability.id := "tempo-scan";
              Capability.label := "Tempo Scan";
              Capability.detail := "Reads user sentiment and adjusts coaching cadence." |};
           {| Capability.id := "ritual-builder";
              Capability.label := "Ritual Builder";
              Capability.detail := "Designs recurring flows with MCP automations." |};
           {| Capability.id := "handoff-protocol";
              Capability.label := "Handoff Protocol";
              Capability.detail := "Drafts MCP-ready SOPs for delegation." |} ];
       Mode.voice := None |} ].

Section Controller.

(** The [n]-th result of [crypto.randomUUID()] and of [Date.now()], and the
    message of the [AbortError] a cancelled request rejects with. *)
Variable randomUUID : nat -> string.
Variable now : nat -> Z.
Variable abortMessage : string.

(** A message built at this point of the run: [buildId()], [Date.now()]. *)
Definition stamp (w : World) (r : Role) (text mode : string) : Message :=
  {| id := randomUUID (uuids w); role := r; content := text;
     createdAt := now (ticks w); modeId := mode |}.

(** The world after one more message was built and appended. *)
Definition append (m : Message) (w : World) : World :=
  {| ui := setMessages (fun prev => (prev ++ [m])%list) (ui w);
     recorderAbortRef := recorderAbortRef w;
     controllers := controllers w;
     inflight := inflight w;
     effects := effects w;
     uuids := S (uuids w);
     ticks := S (ticks w) |}.

Definition update (change : State -> State) (w : World) : World :=
  {| ui := change (ui w);
     recorderAbortRef := recorderAbortRef w;
     controllers := controllers w;
     inflight := inflight w;
     effects := effects w;
     uuids := uuids w;
     ticks := ticks w |}.

Definition perform (e : Effect) (w : World) : World :=
  {| ui := ui w;
     recorderAbortRef := recorderAbortRef w;
     controllers := controllers w;
     inflight := inflight w;
     effects := effects w ++ [e];
     uuids := uuids w;
     ticks := ticks w |}.

(** [recorderAbortRef.current.abort()] when the ref holds a controller. *)
Definition abortPrevious (w : World) : World :=
  match recorderAbortRef w with
  | Some previous => perform (Abort previous) w
  | None => w
  end.

(** [new AbortController()], stored in the ref, and the call suspended at
    its [fetch]. *)
Definition takeOff (mode : string) (payload : Chat.ChatRequest) (w : World) : World :=
  let controller := controllers w in
  {| ui := ui w;
     recorderAbortRef := Some controller;
     controllers := S controller;
     inflight := inflight w ++ [ChatFlight controller mode];
     effects := effects w ++ [Send (ChatCall controller payload)];
     uuids := uuids w;
     ticks := ticks w |}.

Definition land (which : Flight -> bool) (w : World) : World :=
  {| ui := ui w;
     recorderAbortRef := recorderAbortRef w;
     controllers := controllers w;
     inflight := landed which (inflight w);
     effects := effects w;
     uuids := uuids w;
     ticks := ticks w |}.

(** [handleSubmit] up to its [await fetch]. *)
Definition handleSubmit (contentOverride : option string) (w : World) : World :=
  let content := trim (nullish contentOverride (pendingInput (ui w))) in
  if negb (truthy content) then w
  else
    let mode := currentModeId (ui w) in
    let newMessage := stamp w user content mode in
    let payload :=
      {| Chat.message := Some content;
         Chat.modeId := Some mode;
         Chat.systemPrompt := option_map Mode.systemPrompt (currentMode (ui w));
         Chat.conversation := Some (map turnOf (messages (ui w) ++ [newMessage])%list) |} in
    takeOff mode payload
      (abortPrevious
         (update (setIsStreaming true)
            (update (setPendingInput "")
               (append newMessage w)))).

(** What the [try] block of [handleSubmit] throws, if it throws. *)
Definition thrown {A : Type} (o : Outcome A) : option Thrown :=
  match o with
  | Rejected e => Some e
  | NotOk statusText => Some (ErrorWith ("Gemini Live request failed: " ++ statusText))
  | BodyRejected e => Some e
  | Resolved _ => None
  end.

(** The text of the [catch] block. *)
Definition describe (e : Thrown) : string :=
  match e with
  | ErrorWith message => "Gemini live agent error: " ++ message
  | NotAnError => "Gemini live agent error: unknown"
  end.

(** A request whose signal is aborted rejects with the [AbortError],
    whatever the network would have delivered. *)
Definition delivered {A : Type} (controller : nat) (o : Outcome A) (w : World)
  : Outcome A :=
  if aborted controller w then Rejected (ErrorWith abortMessage) else o.

(** The success path of [handleSubmit] after both awaits. *)
Definition showReply (mode : string) (r : ChatReply) (w : World) : World :=
  let w1 := append (stamp w assistant (reply r) mode) w in
  let w2 :=
    match plan r with
    | Some p => if truthy p then append (stamp w1 system p mode) w1 else w1
    | None => w1
    end in
  perform (Speak (reply r)) w2.

(** [handleSubmit] from its [await fetch] on: [try], [catch], [finally]. *)
Definition resumeSubmit (controller : nat) (o : Outcome ChatReply) (w : World)
  : World :=
  match find (isChatFlight controller) (inflight w) with
  | None => w
  | Some flight =>
      let mode := startedIn flight in
      let w0 := land (isChatFlight controller) w in
      let tried :=
        match delivered controller o w with
        | Resolved r => showReply mode r w0
        | failed =>
            match thrown failed with
            | Some e => append (stamp w0 system (describe e) mode) w0
            | None => w0
            end
        end in
      update (setIsStreaming false) tried
  end.

(** [handleDesignSynthesis] up to its [await fetch]. *)
Definition handleDesignSynthesis (w : World) : World :=
  let scratch := trim (designNotes (ui w)) in
  if negb (truthy scratch) && Nat.eqb (length (messages (ui w))) 0 then w
  else
    let payload :=
      {| Design.modeId := Some (currentModeId (ui w));
         Design.notes := Some scratch;
         Design.transcript := Some (map turnOf (sliceLast 6 (messages (ui w)))) |} in
    let w1 := update (setDesignLoading true) w in
    {| ui := ui w1;
       recorderAbortRef := recorderAbortRef w1;
       controllers := controllers w1;
       inflight := inflight w1 ++ [DesignFlight (length (effects w1))];
       effects := effects w1 ++ [Send (DesignCall payload)];
       uuids := uuids w1;
       ticks := ticks w1 |}.

(** What the [try] block of [handleDesignSynthesis] throws, if it throws. *)
Definition designThrown {A : Type} (o : Outcome A) : option Thrown :=
  match o with
  | Rejected e => Some e
  | NotOk statusText => Some (ErrorWith ("Design call failed: " ++ statusText))
  | BodyRejected e => Some e
  | Resolved _ => None
  end.

(** [handleDesignSynthesis] from its [await fetch] on. *)
Definition resumeDesign (ticket : nat) (o : Outcome string) (w : World) : World :=
  match find (isDesignFlight ticket) (inflight w) with
  | None => w
  | Some _ =>
      let w0 := land (isDesignFlight ticket) w in
      let output :=
        match o with
        | Resolved proposal => proposal
        | failed =>
            match designThrown failed with
            | Some (ErrorWith message) => message
            | _ => "Unknown error"
            end
        end in
      update (setDesignLoading false) (update (setDesignOutput (Some output)) w0)
  end.

(** What can happen to the page. *)
Inductive Event : Type :=
| Submit (contentOverride : option string)
| ChatSettled (controller : nat) (o : Outcome ChatReply)
| DesignSynthesis
| DesignSettled (ticket : nat) (o : Outcome string)
| PendingInputChanged (value : string)
| ModeChosen (mode : string)
| DesignNotesChanged (value : string).

Definition step (e : Event) (w : World) : World :=
  match e with
  | Submit contentOverride => handleSubmit contentOverride w
  | ChatSettled controller o => resumeSubmit controller o w
  | DesignSynthesis => handleDesignSynthesis w
  | DesignSettled ticket o => resumeDesign ticket o w
  | PendingInputChanged value => update (setPendingInput value) w
  | ModeChosen mode => update (setCurrentModeId mode) w
  | DesignNotesChanged value => update (setDesignNotes value) w
  end.

Definition run (events : list Event) (w : World) : World :=
  fold_left (fun world e => step e world) events w.

(** The page as it is first rendered. *)
Definition start (seed : list Mode.Mode) (mode : string) : World :=
  {| ui := {| modes := seed; currentModeId := mode; messages := [];
              pendingInput := ""; isStreaming := false; designNotes := "";
              designOutput := None; designLoading := false |};
     recorderAbortRef := None;
     controllers := 0;
     inflight := [];
     effects := [];
     uuids := 0;
     ticks := 0 |}.

(** The worlds a session passes through. *)
Inductive Reachable : World -> Prop :=
| reach_start (seed : list Mode.Mode) (mode : string) :
    Reachable (start seed mode)
| reach_step (e : Event) (w : World) :
    Reachable w -> Reachable (step e w).

(** The page as [Home] first renders it: the built-in modes, the first of
    them current. *)
Definition home : World :=
  start defaultModes
    (match defaultModes with
     | first :: _ => Mode.id first
     | [] => ""
     end).

End Controller.

End Session.

(** ** Concrete inputs *)

Module Sample.

Import Js Json Gateway.

(** An environment with a key, and one without. *)
Definition keyed : Env :=
  {| GEMINI_API_KEY := Some "test-key"; GEMINI_MODEL := None; GEMINI_API_BASE := None |}.

Definition keyless : Env :=
  {| GEMINI_API_KEY := None; GEMINI_MODEL := None; GEMINI_API_BASE := None |}.

(** The text [{"reply":"Hello","plan":"- step one"}] of the specification. *)
Definition helloText : string :=
  "{" ++ quoted "reply" ++ ":" ++ quoted "Hello" ++ ","
  ++ quoted "plan" ++ ":" ++ quoted "- step one" ++ "}".

(** The text [{"reply":""}]. *)
Definition silentText : string :=
  "{" ++ quoted "reply" ++ ":" ++ quoted "" ++ "}".

(** An upstream payload with one candidate that carries the given parts. *)
Definition candidateOf (texts : list (option string)) : GeminiCandidate :=
  {| Gemini.content :=
       Some {| Gemini.parts := Some (map (fun t => {| Gemini.text := t |}) texts) |} |}.

Definition answering (texts : list (option string)) : Response :=
  {| ok := true; status := 200; bodyText := "";
     bodyJson := Some {| Gemini.candidates := Some [candidateOf texts] |} |}.

Definition randomUUID (n : nat) : string :=
  "uuid-" ++ String (ascii_of_nat (48 + n)) "".

Definition now (n : nat) : Z := (1700000000000 + Z.of_nat n)%Z.

Definition abortMessage : string := "signal is aborted without reason".

(** The page after one submission, and after a second one made while the
    first request is still in flight. *)
Definition afterFirst : Session.World :=
  Session.run randomUUID now abortMessage
    [Session.Submit (Some "first")] Session.home.

Definition afterSecond : Session.World :=
  Session.run randomUUID now abortMessage
    [Session.Submit (Some "first"); Session.Submit (Some "second")] Session.home.

(** The same page after the operator switched to another mode. *)
Definition afterSwitch : Session.World :=
  Session.run randomUUID now abortMessage
    [Session.ModeChosen "flow-coach"] afterSecond.

(** A chat request with a history of two turns. *)
Definition history : list Turn :=
  [ {| role := "user"; content := "hi" |};
    {| role := "assistant"; content := "Hello there" |} ].

Definition chatting : Chat.ChatRequest :=
  {| Chat.message := Some "go on";
     Chat.modeId := Some "flow-coach";
     Chat.systemPrompt := None;
     Chat.conversation := Some history |}.

Definition designing : Design.DesignRequest :=
  {| Design.modeId := Some "flow-coach";
     Design.notes := None;
     Design.transcript := Some history |}.

(** A chat request whose message is two spaces. *)
Definition whispering : Chat.ChatRequest :=
  {| Chat.message := Some "  ";
     Chat.modeId := None;
     Chat.systemPrompt := None;
     Chat.conversation := None |}.

End Sample.

(** ** The rest of the page: modes, connectors, voices, speech capture *)

Module Console.

Import Js Session.

Module Integration.
Inductive Status : Type := draft | ready | error.
Record Integration : Type := {
  id : string;
  name : string;
  endpoint : string;
  description : string;
  status : Status;
  notes : option string
}.
End Integration.

Definition defaultIntegrations : list Integration.Integration :=
  [ {| Integration.id := "mcp-research-graph";
       Integration.name := "MCP Research Graph";
       Integration.endpoint := "https://mcp.example.com/research";
       Integration.description :=
         "Streams live citations, topic graphs, and evidence snapshots into the Research Navigator mode.";
       Integration.status := Integration.ready;
       Integration.notes := Some "Auto-provisions analytic backlinks for each insight." |};
    {| Integration.id := "workflow-orchestrator";
       Integration.name := "Workflow Orchestrator API";
       Integration.endpoint := "https://api.ops.orbit/v1/flows";
       Integration.description :=
         "Turns Flow Coach playbooks into executable automations and multi-agent rituals.";
       Integration.status := Integration.ready;
       Integration.notes := Some "Supports step templating and adaptive triggers." |} ].

Definition accentSeed : list string :=
  [ "from-sky-400 to-indigo-500";
    "from-lime-400 to-emerald-500";
    "from-rose-400 to-purple-500" ].

Definition DEFAULT_SUMMARY : string :=
  "Autonomous mode generated without explicit description. Keep prompts concise.".

(** [String.prototype.slice(0, count)]: the first [count] code units. *)
Definition sliceFirst (count : nat) (s : string) : string := substring 0 count s.

(** [String.prototype.toLowerCase] on the letters A..Z; code units outside
    ASCII are left as they are. *)
Definition lowerChar (c : ascii) : ascii :=
  let n := nat_of_ascii c in
  if ((65 <=? n) && (n <=? 90))%nat then ascii_of_nat (n + 32) else c.

Fixpoint toLowerCase (s : string) : string :=
  match s with
  | EmptyString => EmptyString
  | String c rest => String (lowerChar c) (toLowerCase rest)
  end.

(** A count written into a template literal: its decimal digits. *)
Fixpoint digits (fuel n : nat) (written : string) : string :=
  match fuel with
  | 0 => written
  | S fuel' =>
      let written' := String (ascii_of_nat (48 + n mod 10)) written in
      if (n <? 10)%nat then written' else digits fuel' (n / 10) written'
  end.

Definition decimal (n : nat) : string := digits (S n) n "".

Definition setModes (change : list Mode.Mode -> list Mode.Mode) (s : State) : State :=
  {| modes := change (modes s); currentModeId := currentModeId s;
     messages := messages s; pendingInput := pendingInput s;
     isStreaming := isStreaming s; designNotes := designNotes s;
     designOutput := designOutput s; designLoading := designLoading s |}.

(** A mode with another voice, [{ ...mode, voice }]. *)
Definition withVoice (mode : Mode.Mode) (v : option string) : Mode.Mode :=
  {| Mode.id := Mode.id mode; Mode.name := Mode.name mode;
     Mode.accent := Mode.accent mode; Mode.description := Mode.description mode;
     Mode.systemPrompt := Mode.systemPrompt mode;
     Mode.capabilities := Mode.capabilities mode; Mode.voice := v |}.

(** The voice for a mode that has none; a voice is known by its name:
    [available.find((voice) => voice.name.toLowerCase().includes("female"))
     ?? available[0] ?? null]. *)
Definition pickVoice (available : list string) : option string :=
  match find (fun voice => includes (toLowerCase voice) "female") available with
  | Some voice => Some voice
  | None => Gateway.first available
  end.

(** [handleVoices], with what [synthVoices()] returns. *)
Definition handleVoices (available : list string) (w : World) : World :=
  update
    (setModes
       (map (fun mode =>
               withVoice mode
                 match Mode.voice mode with
                 | Some v => Some v
                 | None => pickVoice available
                 end)))
    w.

(** One entry of the results of a recognition event, with the transcripts of
    its alternatives, and the event. *)
Record SpeechResult : Type := { isFinal : bool; alternatives : list string }.
Record SpeechEvent : Type := { resultIndex : nat; results : list SpeechResult }.

(** The loop of [onresult]: [interim] and [final] after the results from
    [resultIndex] on. *)
Fixpoint gather (rs : list SpeechResult) (interim final : string) : string * string :=
  match rs with
  | [] => (interim, final)
  | result :: rest =>
      let transcript := nullish (Gateway.first (alternatives result)) "" in
      if isFinal result
      then gather rest interim (final ++ transcript ++ " ")
      else gather rest (interim ++ transcript) final
  end.

Definition heard (event : SpeechEvent) : string * string :=
  gather (skipn (resultIndex event) (results event)) "" "".

(** A call on the recognition engine. *)
Inductive EngineCall : Type := Start | Stop.

(** The page with what [Home] keeps besides the chat and design state: the
    connectors, the listening flag, whether [recognitionRef] holds an
    engine, whether the voices handler is installed, and the calls made on
    the engine. *)
Record Page : Type := {
  world : World;
  integrations : list Integration.Integration;
  isListening : bool;
  isSpeechReady : bool;
  recognitionRef : bool;
  onvoiceschanged : bool;
  engine : list EngineCall
}.

Definition onWorld (change : World -> World) (p : Page) : Page :=
  {| world := change (world p); integrations := integrations p;
     isListening := isListening p; isSpeechReady := isSpeechReady p;
     recognitionRef := recognitionRef p; onvoiceschanged := onvoiceschanged p;
     engine := engine p |}.

Definition setIsListening (value : bool) (p : Page) : Page :=
  {| world := world p; integrations := integrations p;
     isListening := value; isSpeechReady := isSpeechReady p;
     recognitionRef := recognitionRef p; onvoiceschanged := onvoiceschanged p;
     engine := engine p |}.

Definition call (c : EngineCall) (p : Page) : Page :=
  {| world := world p; integrations := integrations p;
     isListening := isListening p; isSpeechReady := isSpeechReady p;
     recognitionRef := recognitionRef p; onvoiceschanged := onvoiceschanged p;
     engine := engine p ++ [c] |}.

(** One more call of [buildId] that builds no message. *)
Definition drawId (w : World) : World :=
  {| ui := ui w;
     recorderAbortRef := recorderAbortRef w;
     controllers := controllers w;
     inflight := inflight w;
     effects := effects w;
     uuids := S (uuids w);
     ticks := ticks w |}.

(** The utterances spoken, the controllers aborted and the controllers of
    the chat requests sent, each in the order of the effects. *)
Fixpoint spoken (log : list Effect) : list string :=
  match log with
  | [] => []
  | Speak utterance :: rest => utterance :: spoken rest
  | _ :: rest => spoken rest
  end.

Fixpoint abortions (log : list Effect) : list nat :=
  match log with
  | [] => []
  | Abort c :: rest => c :: abortions rest
  | _ :: rest => abortions rest
  end.

Fixpoint launches (log : list Effect) : list nat :=
  match log with
  | [] => []
  | Send (ChatCall c _) :: rest => c :: launches rest
  | _ :: rest => launches rest
  end.

Definition hasRole (r : Role) (m : Message) : bool :=
  match role m, r with
  | user, user => true
  | assistant, assistant => true
  | system, system => true
  | _, _ => false
  end.

(** Numbers that rise strictly and stay below a bound. *)
Inductive Rising : list nat -> nat -> Prop :=
| rising_nil (bound : nat) : Rising [] bound
| rising_snoc (ks : list nat) (k bound : nat) :
    Rising ks k -> k < bound -> Rising (ks ++ [k]) bound.

(** The books of the chat path: the requests sent carry the controllers
    0, 1, 2, ... in this order, all but the last of them were aborted, in
    this order, the ref holds the last, every request has its user message,
    and what was spoken is what the assistant said. *)
Definition Ledger (w : World) : Prop :=
  launches (effects w) = seq 0 (controllers w)
  /\ abortions (effects w) = seq 0 (pred (controllers w))
  /\ recorderAbortRef w = match controllers w with
                          | 0 => None
                          | S latest => Some latest
                          end
  /\ length (filter (hasRole user) (messages (ui w))) = controllers w
  /\ spoken (effects w) = map content (filter (hasRole assistant) (messages (ui w))).

(** Where the streaming flag is set, the latest request is in flight. *)
Definition Streaming (w : World) : Prop :=
  isStreaming (ui w) = true ->
  0 < controllers w
  /\ exists mode, In (ChatFlight (pred (controllers w)) mode) (inflight w).

(** The current mode, the mode of every message and the mode of every
    suspended chat call are modes of the page. *)
Definition Housed (w : World) : Prop :=
  let ids := map Mode.id (modes (ui w)) in
  In (currentModeId (ui w)) ids
  /\ (forall m, In m (messages (ui w)) -> In (modeId m) ids)
  /\ (forall c mode, In (ChatFlight c mode) (inflight w) -> In mode ids).

(** [designOutput ?? designNotes], or the fixed phrase when that is empty. *)
Definition summaryOf (s : State) : string :=
  or_else (nullish (designOutput s) (designNotes s)) DEFAULT_SUMMARY.

Section Handlers.

Variable randomUUID : nat -> string.
Variable now : nat -> Z.
Variable abortMessage : string.

(** The mode [addMode] builds. *)
Definition spawned (w : World) : Mode.Mode :=
  let s := ui w in
  let id := randomUUID (uuids w) in
  {| Mode.id := id;
     Mode.name := "Custom Mode " ++ decimal (length (modes s) + 1);
     Mode.accent := nth (length (modes s) mod length accentSeed) accentSeed "";
     Mode.description := sliceFirst 220 (summaryOf s);
     Mode.systemPrompt := "You are " ++ id ++ ". " ++ summaryOf s;
     Mode.capabilities :=
       [ {| Capability.id := "cap-" ++ randomUUID (S (uuids w));
            Capability.label := "Adaptive Expansion";
            Capability.detail := "Learns from design synthesis and extends agentic scope." |} ];
     Mode.voice :=
       match currentMode s with
       | Some mode => Mode.voice mode
       | None => None
       end |}.

(** [addMode]. *)
Definition addMode (w : World) : World :=
  let newMode := spawned w in
  drawId
    (drawId
       (update
          (fun s =>
             setDesignNotes ""
               (setDesignOutput None
                  (setCurrentModeId (Mode.id newMode)
                     (setModes (fun prev => (prev ++ [newMode])%list) s))))
          w)).

(** The ids and the clock readings of the messages are among those drawn
    so far, in rising order; the ids of the modes are those of the built-in
    modes followed by ids drawn, in rising order. *)
Definition Stamped (w : World) : Prop :=
  exists ks ts,
    map id (messages (ui w)) = map randomUUID ks /\ Rising ks (uuids w)
    /\ map createdAt (messages (ui w)) = map now ts /\ Rising ts (ticks w).

Definition Named (w : World) : Prop :=
  exists ks,
    map Mode.id (modes (ui w))
    = (map Mode.id defaultModes ++ map randomUUID ks)%list
    /\ Rising ks (uuids w).

(** What the actions of the page do to the chat and design state, one
    piece at a time: an event of the session controller (a mode is chosen
    from those there are), a new mode, an id drawn, voices bound. *)
Inductive Via : World -> World -> Prop :=
| via_here (w : World) : Via w w
| via_step (e : Event) (w w' : World) :
    (forall mode, e = ModeChosen mode -> In mode (map Mode.id (modes (ui w)))) ->
    Via (step randomUUID now abortMessage e w) w' -> Via w w'
| via_mode (w w' : World) : Via (addMode w) w' -> Via w w'
| via_draw (w w' : World) : Via (drawId w) w' -> Via w w'
| via_voices (available : list string) (w w' : World) :
    Via (handleVoices available w) w' -> Via w w'.

(** [addIntegration]. *)
Definition addIntegration (p : Page) : Page :=
  let w := world p in
  let described := trim (designNotes (ui w)) in
  if negb (truthy described) then p
  else
    let draft :=
      {| Integration.id := randomUUID (uuids w);
         Integration.name := "Custom Connector " ++ decimal (length (integrations p) + 1);
         Integration.endpoint := "https://api.placeholder.dev/endpoint";
         Integration.description := described;
         Integration.status := Integration.draft;
         Integration.notes :=
           Some "Review this connector spec, map credentials, and upgrade status once validated." |} in
    {| world := drawId (update (setDesignNotes "") w);
       integrations := draft :: integrations p;
       isListening := isListening p; isSpeechReady := isSpeechReady p;
       recognitionRef := recognitionRef p; onvoiceschanged := onvoiceschanged p;
       engine := engine p |}.

(** The handlers installed on the recognition engine. *)
Definition onstart (p : Page) : Page :=
  onWorld (update (setPendingInput "")) (setIsListening true p).

Definition onresult (event : SpeechEvent) (p : Page) : Page :=
  let '(interim, final) := heard event in
  let shown :=
    onWorld
      (update (fun s =>
                 setPendingInput
                   (if truthy (trim final) then "" else or_else interim (pendingInput s))
                   s))
      p in
  if truthy (trim final)
  then onWorld (handleSubmit randomUUID now (Some (trim final))) (call Stop shown)
  else shown.

Definition onerror (p : Page) : Page := setIsListening false (call Stop p).

Definition onend (p : Page) : Page := setIsListening false p.

(** [toggleListening]. *)
Definition toggleListening (p : Page) : Page :=
  if negb (recognitionRef p) then p
  else if isListening p then call Stop p
  else call Start p.

(** Whether the Send button is disabled. *)
Definition sendDisabled (p : Page) : bool :=
  negb (truthy (trim (pendingInput (ui (world p))))) || isStreaming (ui (world p)).

(** What the operator, the network and the speech engines can do to the
    page. A disabled button does nothing; the handlers of an engine run only
    where they were installed. *)
Inductive Action : Type :=
| Typed (value : string)
| NotesTyped (value : string)
| ModeClicked (index : nat)
| SendClicked
| ChatDone (controller : nat) (o : Outcome ChatReply)
| DesignClicked
| ImproveClicked
| DesignDone (ticket : nat) (o : Outcome string)
| AutoSpawnClicked
| ConnectorClicked
| VoiceClicked
| EngineStarted
| EngineResult (event : SpeechEvent)
| EngineFailed
| EngineEnded
| VoicesChanged (available : list string).

Definition act (a : Action) (p : Page) : Page :=
  match a with
  | Typed value => onWorld (update (setPendingInput value)) p
  | NotesTyped value => onWorld (update (setDesignNotes value)) p
  | ModeClicked index =>
      match nth_error (modes (ui (world p))) index with
      | Some mode => onWorld (update (setCurrentModeId (Mode.id mode))) p
      | None => p
      end
  | SendClicked =>
      if sendDisabled p then p else onWorld (handleSubmit randomUUID now None) p
  | ChatDone controller o =>
      onWorld (resumeSubmit randomUUID now abortMessage controller o) p
  | DesignClicked =>
      if designLoading (ui (world p)) then p else onWorld handleDesignSynthesis p
  | ImproveClicked => onWorld handleDesignSynthesis p
  | DesignDone ticket o => onWorld (resumeDesign ticket o) p
  | AutoSpawnClicked => onWorld addMode p
  | ConnectorClicked => addIntegration p
  | VoiceClicked => if isSpeechReady p then toggleListening p else p
  | EngineStarted => if recognitionRef p then onstart p else p
  | EngineResult event => if recognitionRef p then onresult event p else p
  | EngineFailed => if recognitionRef p then onerror p else p
  | EngineEnded => if recognitionRef p then onend p else p
  | VoicesChanged available =>
      if onvoiceschanged p then onWorld (handleVoices available) p else p
  end.

Definition play (actions : list Action) (p : Page) : Page :=
  fold_left (fun page a => act a page) actions p.

(** The page after its mount effect: with a recognition engine the handlers
    are installed and, where speech synthesis exists, the voices are bound
    and the voices handler is installed; without one the effect returns
    before any of that. *)
Definition mount (hasEngine hasSynthesis : bool) (voices : list string) : Page :=
  {| world := if hasEngine && hasSynthesis then handleVoices voices home else home;
     integrations := defaultIntegrations;
     isListening := false;
     isSpeechReady := hasEngine;
     recognitionRef := hasEngine;
     onvoiceschanged := hasEngine && hasSynthesis;
     engine := [] |}.

(** The pages a session passes through. *)
Inductive Reached : Page -> Prop :=
| reached_mount (hasEngine hasSynthesis : bool) (voices : list string) :
    Reached (mount hasEngine hasSynthesis voices)
| reached_act (a : Action) (p : Page) :
    Reached p -> Reached (act a p).

End Handlers.

End Console.

(** ** More concrete inputs *)

Module Scenario.

Import Js Session Console.

Definition act := Console.act Sample.randomUUID Sample.now Sample.abortMessage.
Definition play := Console.play Sample.randomUUID Sample.now Sample.abortMessage.

(** A browser with both speech engines and two voices, and one with none. *)
Definition voiced : Page := mount true true ["Alex"; "Google UK English Female"].
Definition mute : Page := mount false true ["Alex"].

(** The operator types a line and sends it. *)
Definition asked : Page := play [Typed "  plan my week "; SendClicked] voiced.

(** Ids that never repeat: the [n]-th is [n] marks. *)
Fixpoint tally (n : nat) : string :=
  match n with
  | 0 => ""
  | S k => String "x" (tally k)
  end.

(** The operator asks twice, the second time by voice while the first request
    is in flight, spawns a mode and drafts a connector; the first request
    then settles. *)
Definition busy : list Action :=
  [ Typed "first"; SendClicked;
    EngineResult {| resultIndex := 0;
                    results := [ {| isFinal := true; alternatives := ["second"] |} ] |};
    NotesTyped "calendar sync"; AutoSpawnClicked;
    NotesTyped "calendar sync"; ConnectorClicked;
    ChatDone 0 (Resolved {| reply := "late"; plan := None |});
    ChatDone 1 (Resolved {| reply := "Done."; plan := Some "- next" |}) ].

Definition crowded : Page :=
  Console.play tally Sample.now Sample.abortMessage busy voiced.

(** A design call in flight. *)
Definition drafting : Page := play [NotesTyped "calendar sync"; ImproveClicked] voiced.

(** A recognition event with a final transcript after an older result, and
    one with interim text only. *)
Definition dictation : SpeechEvent :=
  {| resultIndex := 1;
     results := [ {| isFinal := true; alternatives := ["older"] |};
                  {| isFinal := true; alternatives := [" book a room"; "look a room"] |} ] |}.

Definition murmur : SpeechEvent :=
  {| resultIndex := 0;
     results := [ {| isFinal := false; alternatives := ["book a"] |} ] |}.



Definition unreachable (call : Gateway.Call) : option Gateway.Response := None.

Definition replying (call : Gateway.Call) : option Gateway.Response :=
  Some (Sample.answering [Some Sample.helloText]).

Definition wordless (call : Gateway.Call) : option Gateway.Response :=
  Some (Sample.answering []).



End Scenario.

(** * Properties *)

(** ** Strings *)

Module JsFacts.

Import Js.

Lemma append_empty_r (s : string) : s ++ "" = s.
Proof. induction s as [|c s IH]; simpl; [reflexivity | now rewrite IH]. Qed.

Lemma append_assoc (a b c : string) : (a ++ b) ++ c = a ++ b ++ c.
Proof. induction a as [|x a IH]; simpl; [reflexivity | now rewrite IH]. Qed.

Lemma truthy_false (s : string) : truthy s = false <-> s = "".
Proof. destruct s; simpl; split; congruence. Qed.



Lemma trimStart_blank (s : string) : blank s = true -> trimStart s = "".
Proof.
  induction s as [|c s IH]; simpl; [reflexivity|].
  intros H. apply andb_true_iff in H as [Hc Hs]. rewrite Hc. auto.
Qed.

Lemma trimStart_solid (s : string) : blank s = false -> blank (trimStart s) = false.
Proof.
  induction s as [|c s IH]; simpl; [discriminate|].
  destruct (isWhiteSpace c) eqn:Hc; simpl; [auto | now rewrite Hc].
Qed.

Lemma trimEnd_empty (s : string) : trimEnd s = "" <-> blank s = true.
Proof.
  induction s as [|c s IH]; simpl; [tauto|].
  destruct (trimEnd s) eqn:Ht.
  - destruct (isWhiteSpace c); simpl.
    + split; [intros _; now apply IH | reflexivity].
    + split; discriminate.
  - split; [discriminate|].
    intros H. apply andb_true_iff in H as [_ Hs].
    apply IH in Hs. discriminate.
Qed.


(** A blank string trims to the empty string, and only a blank one does. *)
Lemma trim_empty (s : string) : trim s = "" <-> blank s = true.
Proof.
  unfold trim. split.
  - intros H. apply trimEnd_empty in H.
    destruct (blank s) eqn:Hb; [reflexivity|].
    apply trimStart_solid in Hb. congruence.
  - intros H. now rewrite (trimStart_blank _ H).
Qed.

Lemma truthy_trim (s : string) : truthy (trim s) = negb (blank s).
Proof.
  destruct (blank s) eqn:Hb; simpl.
  - apply trim_empty in Hb. now rewrite Hb.
  - destruct (truthy (trim s)) eqn:Ht; [reflexivity|].
    apply truthy_false, trim_empty in Ht. congruence.
Qed.



(** [join] with the empty separator is plain concatenation. *)
Lemma join_empty (items : list string) :
  join "" items = fold_right String.append "" items.
Proof.
  induction items as [|x [|y rest] IH]; simpl in *.
  - reflexivity.
  - now rewrite append_empty_r.
  - now rewrite IH.
Qed.

Lemma concat_app (xs ys : list string) :
  fold_right String.append "" (xs ++ ys)
  = fold_right String.append "" xs ++ fold_right String.append "" ys.
Proof.
  induction xs as [|x xs IH]; simpl; [reflexivity|].
  now rewrite IH, append_assoc.
Qed.



(** [slice(-count)] is a suffix of at most [count] elements, all of them
    when the array is shorter. *)
Lemma sliceLast_suffix {A : Type} (count : nat) (items : list A) :
  exists older,
    items = (older ++ sliceLast count items)%list
    /\ length (sliceLast count items) = Nat.min count (length items).
Proof.
  unfold sliceLast. exists (firstn (length items - count) items). split.
  - symmetry. apply firstn_skipn.
  - rewrite length_skipn. lia.
Qed.

End JsFacts.

(** ** The response interpreter of the chat route *)

Module InterpreterFacts.

Import Js Json Gateway Chat.

Section AnyParser.

Variable JSON_parse : string -> option JsValue.

(** The test [parsed && typeof parsed.reply === "string"] succeeds exactly
    on an object with a string [reply]; what a number or a string counts as
    in a condition plays no part. *)
Lemma structured_iff (rawText reply : string) :
  (if Json.truthy (safeJsonParse JSON_parse rawText)
   then asString (prop (safeJsonParse JSON_parse rawText) "reply")
   else None) = Some reply
  <-> exists members,
        JSON_parse rawText = Some (JObject members)
        /\ member "reply" members = Some (JString reply).
Proof.
  unfold safeJsonParse. split.
  - destruct (JSON_parse rawText) as [[| b | m e | s | items | members]|]; simpl;
      try discriminate;
      try (destruct b; discriminate);
      try (destruct (negb (m =? 0)%Z); discriminate);
      try (destruct (Js.truthy s); discriminate).
    destruct (member "reply" members) as [[| | | s | |]|] eqn:Hm; simpl;
      try discriminate.
    intros H. injection H as <-. now exists members.
  - intros (members & -> & Hr). simpl. now rewrite Hr.
Qed.

(** C1. A text that parses to an object with a string [reply] is answered
    with exactly that [reply]; the answer carries a [plan] exactly when the
    parsed [plan] is a string, and then that string. *)
Theorem structured_reply_is_returned (rawText : string)
    (members : list (string * JsValue)) (reply : string) :
  JSON_parse rawText = Some (JObject members) ->
  member "reply" members = Some (JString reply) ->
  exists plan,
    respond JSON_parse rawText = json (ReplyBody reply plan) 200
    /\ (forall p, plan = Some p <-> member "plan" members = Some (JString p)).
Proof.
  intros Hparse Hreply.
  exists (asString (member "plan" members)). split.
  - unfold respond, safeJsonParse. rewrite Hparse. simpl. now rewrite Hreply.
  - intros p. destruct (member "plan" members) as [[| | | s | |]|]; simpl;
      split; congruence.
Qed.

(** C2. A text that does not parse to an object with a string [reply] is
    answered with the text itself and no [plan], or with the placeholder
    when the text is empty; either way that [reply] is not empty. *)
Theorem unstructured_text_is_the_reply (rawText : string) :
  (forall members reply,
      JSON_parse rawText = Some (JObject members) ->
      member "reply" members <> Some (JString reply)) ->
  exists reply,
    respond JSON_parse rawText = json (ReplyBody reply None) 200
    /\ (rawText <> "" -> reply = rawText)
    /\ (rawText = "" -> reply = "Gemini did not return a message.")
    /\ reply <> "".
Proof.
  intros Hshape.
  exists (or_else rawText NO_MESSAGE). split.
  - unfold respond.
    destruct (if Json.truthy (safeJsonParse JSON_parse rawText)
              then asString (prop (safeJsonParse JSON_parse rawText) "reply")
              else None) as [reply|] eqn:Htest; [|reflexivity].
    apply structured_iff in Htest as (members & Hparse & Hreply).
    now destruct (Hshape members reply Hparse).
  - unfold or_else. destruct rawText; simpl.
    + repeat split; [congruence | discriminate].
    + repeat split; [discriminate | discriminate].
Qed.

(** The answer has an empty [reply] only on the structured path, when the
    parsed [reply] is the empty string. *)
Lemma empty_reply_iff (rawText : string) :
  (exists plan, respond JSON_parse rawText = json (ReplyBody "" plan) 200)
  <-> exists members,
        JSON_parse rawText = Some (JObject members)
        /\ member "reply" members = Some (JString "").
Proof.
  unfold respond. split.
  - intros [plan H].
    destruct (if Json.truthy (safeJsonParse JSON_parse rawText)
              then asString (prop (safeJsonParse JSON_parse rawText) "reply")
              else None) as [reply|] eqn:Htest.
    + injection H as -> _. now apply structured_iff.
    + injection H as H. unfold or_else in H. destruct rawText; discriminate.
  - intros (members & Hparse & Hreply).
    assert (Htest : (if Json.truthy (safeJsonParse JSON_parse rawText)
              then asString (prop (safeJsonParse JSON_parse rawText) "reply")
              else None) = Some "") by (apply structured_iff; eauto).
    rewrite Htest. eauto.
Qed.

End AnyParser.

(** The examples of the specification, with the reader of module [Json]. *)
Example hello_with_plan :
  respond Json.parse Sample.helloText = json (ReplyBody "Hello" (Some "- step one")) 200.
Proof. reflexivity. Qed.

Example plain_sentence :
  respond Json.parse "Just a plain sentence."
  = json (ReplyBody "Just a plain sentence." None) 200.
Proof. reflexivity. Qed.

Example no_candidates :
  respond Json.parse (extractText {| Gemini.candidates := Some [] |})
  = json (ReplyBody "Gemini did not return a message." None) 200.
Proof. reflexivity. Qed.

(** A structured answer whose [reply] is the empty string is passed on as it
    is: the placeholder belongs to the fallback only. *)
Example silent_reply :
  respond Json.parse Sample.silentText = json (ReplyBody "" None) 200.
Proof. reflexivity. Qed.

Lemma structured_reply_is_returned_witness :
  exists plan,
    respond Json.parse Sample.helloText = json (ReplyBody "Hello" plan) 200
    /\ (forall p, plan = Some p
          <-> member "plan" [("reply", JString "Hello"); ("plan", JString "- step one")]
              = Some (JString p)).
Proof.
  apply (structured_reply_is_returned Json.parse Sample.helloText
           [("reply", JString "Hello"); ("plan", JString "- step one")] "Hello");
    reflexivity.
Defined.

Lemma unstructured_text_is_the_reply_witness :
  exists reply,
    respond Json.parse "Just a plain sentence." = json (ReplyBody reply None) 200
    /\ ("Just a plain sentence." <> "" -> reply = "Just a plain sentence.")
    /\ ("Just a plain sentence." = "" -> reply = "Gemini did not return a message.")
    /\ reply <> "".
Proof.
  apply (unstructured_text_is_the_reply Json.parse "Just a plain sentence.").
  intros members reply H. vm_compute in H. discriminate.
Defined.

End InterpreterFacts.

(** ** The two gateways *)

Module GatewayFacts.

Import Js Json Gateway JsFacts.

(** *** Text extraction *)

(** C6. Extraction reads the first candidate only and concatenates the
    [text] of its parts in order, a part without [text] counting as empty;
    without candidates, without content or without parts it yields the empty
    string.  Both routes use this function. *)
Theorem extractText_reads_first_candidate :
  (forall parts others,
      extractText
        {| Gemini.candidates :=
             Some ({| Gemini.content := Some {| Gemini.parts := Some parts |} |}
                   :: others) |}
      = fold_right String.append ""
          (map (fun part => match Gemini.text part with
                            | Some t => t
                            | None => ""
                            end) parts))
  /\ (forall first others,
        extractText {| Gemini.candidates := Some (first :: others) |}
        = extractText {| Gemini.candidates := Some [first] |})
  /\ extractText {| Gemini.candidates := None |} = ""
  /\ extractText {| Gemini.candidates := Some [] |} = ""
  /\ (forall others,
        extractText
          {| Gemini.candidates := Some ({| Gemini.content := None |} :: others) |}
        = "")
  /\ (forall others,
        extractText
          {| Gemini.candidates :=
               Some ({| Gemini.content := Some {| Gemini.parts := None |} |}
                     :: others) |}
        = "").
Proof.
  repeat split; try reflexivity.
  intros parts others. unfold extractText. simpl. apply join_empty.
Qed.

(** Extraction distributes over the parts: the text of a run of parts is the
    text of its first half followed by the text of its second half. *)
Lemma extractText_parts_app (before after : list GeminiPart) :
  let payloadOf parts :=
    {| Gemini.candidates :=
         Some [ {| Gemini.content := Some {| Gemini.parts := Some parts |} |} ] |} in
  extractText (payloadOf (before ++ after)%list)
  = extractText (payloadOf before) ++ extractText (payloadOf after).
Proof.
  unfold extractText. simpl. now rewrite !join_empty, map_app, concat_app.
Qed.

Example extractText_sample :
  extractText {| Gemini.candidates :=
                   Some [ Sample.candidateOf [Some "Hel"; None; Some "lo"];
                          Sample.candidateOf [Some "ignored"] ] |}
  = "Hello".
Proof. reflexivity. Qed.

(** *** The credential and the message *)

(** C3. Without a configured credential both routes answer 500 with their
    fixed configuration error, whatever the request and the upstream service
    are, and call nothing. *)
Theorem missing_key_is_a_configuration_error
    (JSON_parse : string -> option JsValue) (env : Env)
    (upstream : Call -> option Response)
    (chat : option Chat.ChatRequest) (design : option Design.DesignRequest) :
  configured (GEMINI_API_KEY env) = false ->
  run upstream (Chat.POST JSON_parse env chat)
  = (Some (json (ErrorBody Chat.MISSING_KEY None) 500), [])
  /\ run upstream (Design.POST env design)
     = (Some (json (ErrorBody Design.MISSING_KEY None) 500), []).
Proof.
  intros Hkey. unfold Chat.POST, Design.POST. rewrite Hkey. split; reflexivity.
Qed.

Lemma missing_key_is_a_configuration_error_witness :
  run (fun _ => Some (Sample.answering [Some Sample.helloText]))
      (Chat.POST Json.parse Sample.keyless (Some Sample.chatting))
  = (Some (json (ErrorBody Chat.MISSING_KEY None) 500), [])
  /\ run (fun _ => Some (Sample.answering [Some Sample.helloText]))
         (Design.POST Sample.keyless (Some Sample.designing))
     = (Some (json (ErrorBody Design.MISSING_KEY None) 500), []).
Proof.
  apply (missing_key_is_a_configuration_error Json.parse Sample.keyless).
  reflexivity.
Defined.

(** An empty key counts as no key. *)
Lemma empty_key_is_missing (env : Env) :
  configured (GEMINI_API_KEY env) = false
  <-> GEMINI_API_KEY env = None \/ GEMINI_API_KEY env = Some "".
Proof.
  unfold configured. destruct (GEMINI_API_KEY env) as [[|c k]|]; simpl;
    intuition congruence.
Qed.

(** C4. With the credential configured, a chat request whose message is
    empty or all white space is answered 400 [Message is required.] and
    nothing is called. *)
Theorem blank_message_is_rejected
    (JSON_parse : string -> option JsValue) (env : Env)
    (upstream : Call -> option Response)
    (request : Chat.ChatRequest) (message : string) :
  configured (GEMINI_API_KEY env) = true ->
  Chat.message request = Some message ->
  blank message = true ->
  run upstream (Chat.POST JSON_parse env (Some request))
  = (Some (json (ErrorBody "Message is required." None) 400), []).
Proof.
  intros Hkey Hmessage Hblank. unfold Chat.POST.
  rewrite Hkey, Hmessage, truthy_trim, Hblank. reflexivity.
Qed.

Lemma blank_message_is_rejected_witness :
  run (fun _ => Some (Sample.answering [Some Sample.helloText]))
      (Chat.POST Json.parse Sample.keyed (Some Sample.whispering))
  = (Some (json (ErrorBody "Message is required." None) 400), []).
Proof.
  apply (blank_message_is_rejected Json.parse Sample.keyed _ Sample.whispering "  ");
    reflexivity.
Defined.

(** A request without any message is rejected in the same way, and a
    message with something in it reaches the upstream service once. *)
Lemma absent_message_is_rejected
    (JSON_parse : string -> option JsValue) (env : Env)
    (upstream : Call -> option Response) (request : Chat.ChatRequest) :
  configured (GEMINI_API_KEY env) = true ->
  Chat.message request = None ->
  run upstream (Chat.POST JSON_parse env (Some request))
  = (Some (json (ErrorBody "Message is required." None) 400), []).
Proof.
  intros Hkey Hmessage. unfold Chat.POST. now rewrite Hkey, Hmessage.
Qed.

Lemma solid_message_is_forwarded
    (JSON_parse : string -> option JsValue) (env : Env)
    (upstream : Call -> option Response)
    (request : Chat.ChatRequest) (message : string) :
  configured (GEMINI_API_KEY env) = true ->
  Chat.message request = Some message ->
  blank message = false ->
  length (snd (run upstream (Chat.POST JSON_parse env (Some request)))) = 1.
Proof.
  intros Hkey Hmessage Hblank. unfold Chat.POST.
  rewrite Hkey, Hmessage, truthy_trim, Hblank. simpl.
  destruct (upstream _) as [response|]; [|reflexivity].
  destruct (ok response); [|reflexivity].
  destruct (bodyJson response); reflexivity.
Qed.

(** *** Prompt assembly *)









(** The upper-cased line does occur. *)
Example upper_cased_label_occurs :
  includes (Chat.userPrompt Sample.chatting "go on") "USER: hi" = true
  /\ includes (Design.autopilotPrompt Sample.designing) "USER: hi" = true.
Proof. split; reflexivity. Qed.


(** With a key and a message, the answer of the chat route to a successful
    upstream response is the interpretation of the extracted text. *)
Lemma chat_answer_is_interpreted
    (JSON_parse : string -> option JsValue) (env : Env)
    (upstream : Call -> option Response)
    (request : Chat.ChatRequest) (message : string)
    (response : Response) (payload : GeminiResponse) :
  configured (GEMINI_API_KEY env) = true ->
  Chat.message request = Some message ->
  blank message = false ->
  (forall call, upstream call = Some response) ->
  ok response = true ->
  bodyJson response = Some payload ->
  fst (run upstream (Chat.POST JSON_parse env (Some request)))
  = Some (Chat.respond JSON_parse (extractText payload)).
Proof.
  intros Hkey Hmessage Hblank Hup Hok Hjson. unfold Chat.POST.
  rewrite Hkey, Hmessage, truthy_trim, Hblank. simpl.
  now rewrite Hup, Hok, Hjson.
Qed.

End GatewayFacts.

(** ** The session controller *)

Module SessionFacts.

Import Js JsFacts Session.

Section AnySession.

Variable randomUUID : nat -> string.
Variable now : nat -> Z.
Variable abortMessage : string.

Local Notation stamp := (Session.stamp randomUUID now).
Local Notation handleSubmit := (Session.handleSubmit randomUUID now).
Local Notation delivered := (Session.delivered abortMessage).
Local Notation showReply := (Session.showReply randomUUID now).
Local Notation resumeSubmit := (Session.resumeSubmit randomUUID now abortMessage).
Local Notation step := (Session.step randomUUID now abortMessage).
Local Notation run := (Session.run randomUUID now abortMessage).
Local Notation Reachable := (Session.Reachable randomUUID now abortMessage).

(** *** Submitting nothing *)

(** C9. With nothing but white space in the input and no override,
    [handleSubmit] leaves the page as it is: no message, no change of the
    streaming flag or of the input, no request. *)
Theorem blank_submit_changes_nothing (w : World) :
  blank (pendingInput (ui w)) = true ->
  handleSubmit None w = w
  /\ messages (ui (handleSubmit None w)) = messages (ui w)
  /\ isStreaming (ui (handleSubmit None w)) = isStreaming (ui w)
  /\ pendingInput (ui (handleSubmit None w)) = pendingInput (ui w)
  /\ effects (handleSubmit None w) = effects w
  /\ inflight (handleSubmit None w) = inflight w.
Proof.
  intros Hblank.
  assert (H : handleSubmit None w = w).
  { unfold Session.handleSubmit. simpl nullish. now rewrite truthy_trim, Hblank. }
  now rewrite H.
Qed.

(** *** The transcript of a design request *)

Lemma design_request_is_issued (w : World) :
  blank (designNotes (ui w)) = false \/ messages (ui w) <> [] ->
  handleDesignSynthesis w
  = {| ui := setDesignLoading true (ui w);
       recorderAbortRef := recorderAbortRef w;
       controllers := controllers w;
       inflight := inflight w ++ [DesignFlight (length (effects w))];
       effects := effects w ++
         [Send (DesignCall
            {| Design.modeId := Some (currentModeId (ui w));
               Design.notes := Some (trim (designNotes (ui w)));
               Design.transcript :=
                 Some (map turnOf (sliceLast 6 (messages (ui w)))) |})];
       uuids := uuids w;
       ticks := ticks w |}.
Proof.
  intros H. unfold handleDesignSynthesis. rewrite truthy_trim.
  destruct H as [H | H].
  - now rewrite H.
  - destruct (messages (ui w)) eqn:Hm; [congruence|].
    simpl. now rewrite andb_false_r.
Qed.

(** C10. A design request carries the last six messages of the whole log,
    or all of them when there are fewer, as role and content; which mode is
    current makes no difference to them. *)
Theorem design_transcript_is_the_last_six (w : World) :
  blank (designNotes (ui w)) = false \/ messages (ui w) <> [] ->
  exists payload older recent,
    effects (handleDesignSynthesis w) = (effects w ++ [Send (DesignCall payload)])%list
    /\ messages (ui w) = (older ++ recent)%list
    /\ length recent = Nat.min 6 (length (messages (ui w)))
    /\ Design.transcript payload = Some (map turnOf recent)
    /\ forall mode, exists payload',
         effects (handleDesignSynthesis (update (setCurrentModeId mode) w))
         = (effects w ++ [Send (DesignCall payload')])%list
         /\ Design.transcript payload' = Design.transcript payload.
Proof.
  intros H.
  destruct (sliceLast_suffix 6 (messages (ui w))) as (older & Hsplit & Hlen).
  eexists _, older, (sliceLast 6 (messages (ui w))).
  rewrite (design_request_is_issued w H). simpl.
  split; [reflexivity|]. split; [exact Hsplit|]. split; [exact Hlen|].
  split; [reflexivity|].
  intros mode. eexists.
  rewrite (design_request_is_issued (update (setCurrentModeId mode) w)) by exact H.
  simpl. split; reflexivity.
Qed.

(** Without notes and without messages nothing is requested. *)
Lemma design_request_needs_material (w : World) :
  blank (designNotes (ui w)) = true -> messages (ui w) = [] ->
  handleDesignSynthesis w = w.
Proof.
  intros Hn Hm. unfold handleDesignSynthesis.
  now rewrite truthy_trim, Hn, Hm.
Qed.

(** *** Suspended calls and their controllers *)

Lemma pilots_app (a b : list Flight) : pilots (a ++ b) = (pilots a ++ pilots b)%list.
Proof. apply flat_map_app. Qed.

Lemma In_pilots (flights : list Flight) (c : nat) :
  In c (pilots flights) <-> exists mode, In (ChatFlight c mode) flights.
Proof.
  unfold pilots. rewrite in_flat_map. split.
  - intros ([c' mode | t] & Hin & Hc); simpl in Hc; [|contradiction].
    destruct Hc as [-> | []]. now exists mode.
  - intros [mode Hin]. exists (ChatFlight c mode). simpl. auto.
Qed.

Lemma pilots_landed (which : Flight -> bool) (flights : list Flight) (c : nat) :
  In c (pilots (landed which flights)) -> In c (pilots flights).
Proof.
  rewrite !In_pilots. intros [mode H]. exists mode.
  unfold landed in H. now apply filter_In in H.
Qed.

Lemma pilots_landed_unique (which : Flight -> bool) (flights : list Flight) :
  NoDup (pilots flights) -> NoDup (pilots (landed which flights)).
Proof.
  induction flights as [|f flights IH]; simpl; [auto|].
  intros H. change (pilots (f :: flights)) with (pilot f ++ pilots flights)%list in H.
  assert (Hrest : NoDup (pilots flights)) by (destruct f; simpl in H; [now inversion H | exact H]).
  destruct (negb (which f)); [|auto].
  change (pilots (f :: landed which flights))
    with (pilot f ++ pilots (landed which flights))%list.
  destruct f as [c mode | t]; simpl in *; [|auto].
  constructor; [|auto].
  inversion H as [|? ? Hnotin _]; subst. intros Hin. apply Hnotin.
  now apply pilots_landed in Hin.
Qed.

(** With one controller per suspended chat call, looking a call up by its
    controller finds that call. *)
Lemma find_flight (flights : list Flight) (c : nat) (mode : string) :
  NoDup (pilots flights) -> In (ChatFlight c mode) flights ->
  find (isChatFlight c) flights = Some (ChatFlight c mode).
Proof.
  induction flights as [|f flights IH]; simpl; [contradiction|].
  intros Hunique [-> | Hin].
  - simpl. now rewrite Nat.eqb_refl.
  - change (pilots (f :: flights)) with (pilot f ++ pilots flights)%list in Hunique.
    destruct f as [c' mode' | t]; simpl in *.
    + inversion Hunique as [|? ? Hnotin Hrest]; subst.
      destruct (Nat.eqb_spec c' c) as [-> | _]; [|auto].
      exfalso. apply Hnotin, In_pilots. eauto.
    + auto.
Qed.


Lemma landed_keeps_others (flights : list Flight) (c c' : nat) (mode : string) :
  c' <> c -> In (ChatFlight c' mode) flights ->
  In (ChatFlight c' mode) (landed (isChatFlight c) flights).
Proof.
  intros Hne Hin. unfold landed. rewrite filter_In. split; [exact Hin|].
  simpl. now apply Nat.eqb_neq in Hne as ->.
Qed.

(** Settling one chat call leaves the others suspended. *)
Lemma settlement_keeps_other_calls (c c' : nat) (mode : string)
    (o : Outcome ChatReply) (w : World) :
  c' <> c -> In (ChatFlight c' mode) (inflight w) ->
  In (ChatFlight c' mode) (inflight (resumeSubmit c o w)).
Proof.
  intros Hne Hin. unfold Session.resumeSubmit.
  destruct (find (isChatFlight c) (inflight w)) as [flight|]; [|exact Hin].
  assert (Hkept : In (ChatFlight c' mode) (landed (isChatFlight c) (inflight w)))
    by now apply landed_keeps_others.
  destruct (delivered c o w) as [e | statusText | e | r]; cbn [thrown];
    try exact Hkept.
  unfold Session.showReply.
  destruct (plan r) as [p|]; [destruct (truthy p)|]; exact Hkept.
Qed.

(** *** What one submission does *)

Lemma nothing_to_submit (contentOverride : option string) (w : World) :
  blank (nullish contentOverride (pendingInput (ui w))) = true ->
  handleSubmit contentOverride w = w.
Proof.
  intros H. unfold Session.handleSubmit. now rewrite truthy_trim, H.
Qed.

(** A submission with something in it appends the user message, clears the
    input, sets the streaming flag, aborts the controller in the ref if
    there is one, and only then sends its request under a new controller. *)
Lemma submit_issues (contentOverride : option string) (w : World) :
  blank (nullish contentOverride (pendingInput (ui w))) = false ->
  let text := trim (nullish contentOverride (pendingInput (ui w))) in
  let mode := currentModeId (ui w) in
  let newMessage := stamp w user text mode in
  handleSubmit contentOverride w
  = {| ui := setIsStreaming true
               (setPendingInput ""
                  (setMessages (fun prev => (prev ++ [newMessage])%list) (ui w)));
       recorderAbortRef := Some (controllers w);
       controllers := S (controllers w);
       inflight := inflight w ++ [ChatFlight (controllers w) mode];
       effects :=
         (effects w
          ++ match recorderAbortRef w with
             | Some previous => [Abort previous]
             | None => []
             end
          ++ [Send (ChatCall (controllers w)
                {| Chat.message := Some text;
                   Chat.modeId := Some mode;
                   Chat.systemPrompt := option_map Mode.systemPrompt (currentMode (ui w));
                   Chat.conversation :=
                     Some (map turnOf (messages (ui w) ++ [newMessage])%list) |})])%list;
       uuids := S (uuids w);
       ticks := S (ticks w) |}.
Proof.
  intros H. cbv zeta. unfold Session.handleSubmit. rewrite truthy_trim, H.
  unfold takeOff, abortPrevious. cbn [negb].
  unfold perform, update, Session.append.
  cbn [ui recorderAbortRef controllers inflight effects uuids ticks].
  destruct (recorderAbortRef w);
    cbn [ui recorderAbortRef controllers inflight effects uuids ticks];
    [rewrite <- app_assoc|]; reflexivity.
Qed.

(** *** What one settlement does *)

(** The [catch] path: the call leaves the list of suspended calls, one
    system message with the description of the error is appended, and the
    streaming flag is cleared. *)
Lemma settle_with_error (c : nat) (mode : string) (o : Outcome ChatReply)
    (e : Thrown) (w : World) :
  find (isChatFlight c) (inflight w) = Some (ChatFlight c mode) ->
  thrown (delivered c o w) = Some e ->
  resumeSubmit c o w
  = update (setIsStreaming false)
      (Session.append (stamp w system (describe e) mode) (land (isChatFlight c) w)).
Proof.
  intros Hfind Hthrown. unfold Session.resumeSubmit. rewrite Hfind.
  destruct (delivered c o w) as [e' | statusText | e' | r];
    simpl in Hthrown; try discriminate; injection Hthrown as <-; reflexivity.
Qed.

(** The success path: the call leaves the list, the assistant message and,
    for a non-empty plan, a system message are appended, the reply is
    spoken, and the streaming flag is cleared. *)
Lemma settle_with_reply (c : nat) (mode : string) (o : Outcome ChatReply)
    (r : ChatReply) (w : World) :
  find (isChatFlight c) (inflight w) = Some (ChatFlight c mode) ->
  delivered c o w = Resolved r ->
  resumeSubmit c o w
  = update (setIsStreaming false) (showReply mode r (land (isChatFlight c) w)).
Proof.
  intros Hfind Hdelivered. unfold Session.resumeSubmit.
  now rewrite Hfind, Hdelivered.
Qed.


Lemma showReply_frame (mode : string) (r : ChatReply) (w : World) :
  controllers (showReply mode r w) = controllers w
  /\ recorderAbortRef (showReply mode r w) = recorderAbortRef w
  /\ inflight (showReply mode r w) = inflight w
  /\ effects (showReply mode r w) = (effects w ++ [Speak (reply r)])%list
  /\ isStreaming (ui (showReply mode r w)) = isStreaming (ui w).
Proof.
  unfold Session.showReply.
  destruct (plan r) as [p|]; [destruct (truthy p)|]; repeat split; reflexivity.
Qed.

(** *** How the bookkeeping evolves *)

Lemma effects_grow (e : Event) (w : World) :
  exists more, effects (step e w) = (effects w ++ more)%list.
Proof.
  destruct e as [contentOverride | c o | | ticket o | value | mode | value]; simpl.
  - destruct (blank (nullish contentOverride (pendingInput (ui w)))) eqn:Hb.
    + rewrite nothing_to_submit by exact Hb. exists []. now rewrite app_nil_r.
    + rewrite submit_issues by exact Hb. cbn [effects]. eauto.
  - unfold Session.resumeSubmit.
    destruct (find (isChatFlight c) (inflight w)) as [flight|];
      [|exists []; now rewrite app_nil_r].
    destruct (delivered c o w) as [e | statusText | e | r]; cbn [thrown effects update];
      try (exists []; now rewrite app_nil_r).
    destruct (showReply_frame (startedIn flight) r (land (isChatFlight c) w))
      as (_ & _ & _ & -> & _). cbn [effects land]. eauto.
  - unfold handleDesignSynthesis.
    destruct (negb _ && _); [exists []; now rewrite app_nil_r|].
    cbn [effects update]. eauto.
  - unfold resumeDesign.
    destruct (find (isDesignFlight ticket) (inflight w));
      exists []; now rewrite app_nil_r.
  - exists []. now rewrite app_nil_r.
  - exists []. now rewrite app_nil_r.
  - exists []. now rewrite app_nil_r.
Qed.

(** An aborted signal stays aborted. *)
Lemma aborted_step (c : nat) (e : Event) (w : World) :
  aborted c w = true -> aborted c (step e w) = true.
Proof.
  intros H. unfold aborted in *.
  destruct (effects_grow e w) as [more ->].
  rewrite existsb_app, H. reflexivity.
Qed.

Lemma aborted_run (c : nat) (events : list Event) (w : World) :
  aborted c w = true -> aborted c (run events w) = true.
Proof.
  revert w. induction events as [|e events IH]; intros w H; simpl; [exact H|].
  apply IH. now apply aborted_step.
Qed.

(** Every event but a submission leaves the ref and the number of
    controllers alone and suspends no further chat call. *)
Lemma quiet_step (e : Event) (w : World) :
  (forall contentOverride, e <> Submit contentOverride) ->
  controllers (step e w) = controllers w
  /\ recorderAbortRef (step e w) = recorderAbortRef w
  /\ (forall c, In c (pilots (inflight (step e w))) -> In c (pilots (inflight w)))
  /\ (NoDup (pilots (inflight w)) -> NoDup (pilots (inflight (step e w)))).
Proof.
  intros Hquiet.
  destruct e as [contentOverride | c o | | ticket o | value | mode | value]; simpl.
  - now destruct (Hquiet contentOverride).
  - unfold Session.resumeSubmit.
    destruct (find (isChatFlight c) (inflight w)) as [flight|]; [|auto].
    assert (Hland : forall w', controllers w' = controllers w ->
              recorderAbortRef w' = recorderAbortRef w ->
              inflight w' = landed (isChatFlight c) (inflight w) ->
              controllers w' = controllers w
              /\ recorderAbortRef w' = recorderAbortRef w
              /\ (forall c0, In c0 (pilots (inflight w')) -> In c0 (pilots (inflight w)))
              /\ (NoDup (pilots (inflight w)) -> NoDup (pilots (inflight w')))).
    { intros w' Hc Hr Hi. rewrite Hi. repeat split; auto.
      - apply pilots_landed.
      - apply pilots_landed_unique. }
    destruct (delivered c o w) as [e | statusText | e | r]; cbn [thrown];
      try (apply Hland; reflexivity).
    destruct (showReply_frame (startedIn flight) r (land (isChatFlight c) w))
      as (Hc & Hr & Hi & _ & _).
    apply Hland; cbn [update controllers recorderAbortRef inflight]; assumption.
  - unfold handleDesignSynthesis.
    destruct (negb _ && _); [auto|].
    cbn [update controllers recorderAbortRef inflight]. rewrite pilots_app.
    simpl. rewrite app_nil_r. auto.
  - unfold resumeDesign.
    destruct (find (isDesignFlight ticket) (inflight w)); [|auto].
    cbn [update land controllers recorderAbortRef inflight]. repeat split; auto.
    + apply pilots_landed.
    + apply pilots_landed_unique.
  - auto.
  - auto.
  - auto.
Qed.

Lemma Tidy_start (seed : list Mode.Mode) (mode : string) : Tidy (start seed mode).
Proof.
  split; simpl; [contradiction | constructor | contradiction].
Qed.

Lemma Tidy_step (e : Event) (w : World) : Tidy w -> Tidy (step e w).
Proof.
  intros [Hknown Hunique Hlive].
  destruct e as [contentOverride | c o | | ticket o | value | mode | value].
  1: {
    simpl. destruct (blank (nullish contentOverride (pendingInput (ui w)))) eqn:Hb.
    - rewrite nothing_to_submit by exact Hb. now split.
    - rewrite submit_issues by exact Hb. split;
        cbn [controllers inflight recorderAbortRef]; rewrite ?pilots_app; simpl.
      + intros c Hin. apply in_app_or in Hin as [Hin | [<- | []]]; [|lia].
        apply Hknown in Hin. lia.
      + apply NoDup_app; [assumption | repeat constructor; auto |].
        intros c Hin [<- | []]. apply Hknown in Hin. lia.
      + intros c Hin. apply in_app_or in Hin as [Hin | [<- | []]]; [|now left].
        right. unfold aborted. cbn [effects]. rewrite !existsb_app.
        destruct (Hlive c Hin) as [-> | Haborted].
        * simpl. rewrite Nat.eqb_refl. now rewrite orb_true_r.
        * unfold aborted in Haborted. now rewrite Haborted. }
  all: match goal with
       | |- Tidy (step ?e ?w0) =>
           destruct (quiet_step e w0) as (Hc & Hr & Hin & Hnd); [discriminate|];
           destruct (effects_grow e w0) as [more Hmore]
       end;
    (split;
     [ intros c0 H0; rewrite Hc; auto
     | auto
     | intros c0 H0; rewrite Hr; destruct (Hlive c0 (Hin c0 H0)) as [-> | Ha];
       [now left | right; unfold aborted in *; rewrite Hmore, existsb_app, Ha;
                   reflexivity] ]).
Qed.

(** The bookkeeping holds throughout a session. *)
Lemma Reachable_Tidy (w : World) : Reachable w -> Tidy w.
Proof.
  induction 1; [apply Tidy_start | now apply Tidy_step].
Qed.

Lemma Reachable_run (events : list Event) (w : World) :
  Reachable w -> Reachable (run events w).
Proof.
  revert w. induction events as [|e events IH]; intros w H; simpl; [exact H|].
  apply IH. now constructor.
Qed.

(** At most one suspended chat call has a signal that is not aborted: the
    one whose controller is in the ref. *)
Lemma one_live_call (w : World) (c c' : nat) (mode mode' : string) :
  Reachable w ->
  In (ChatFlight c mode) (inflight w) -> aborted c w = false ->
  In (ChatFlight c' mode') (inflight w) -> aborted c' w = false ->
  c = c' /\ recorderAbortRef w = Some c.
Proof.
  intros Hreach Hin Hlive Hin' Hlive'.
  destruct (Reachable_Tidy w Hreach) as [_ _ Hone].
  destruct (Hone c) as [Hc | Hc]; [apply In_pilots; eauto | | congruence].
  destruct (Hone c') as [Hc' | Hc']; [apply In_pilots; eauto | | congruence].
  split; congruence.
Qed.

Lemma sent_app (a b : list Effect) : sent (a ++ b) = (sent a ++ sent b)%list.
Proof.
  induction a as [|[c | r | u] a IH]; simpl; [reflexivity | exact IH | | exact IH].
  now rewrite IH.
Qed.

(** A cancelled request rejects with the abort error. *)
Lemma aborted_is_thrown (c : nat) (o : Outcome ChatReply) (w : World) :
  aborted c w = true ->
  thrown (delivered c o w) = Some (ErrorWith abortMessage).
Proof.
  intros H. unfold Session.delivered. now rewrite H.
Qed.

(** *** Cleanup *)


(** *** One request at a time *)

(** C7, as the code has it. When a message is submitted while an earlier
    request is in flight, the earlier request is aborted before the new one
    is sent.  Whatever the network delivers for the aborted request, its
    reply never reaches the history: when it settles it appends one system
    message with its cancellation error.  The new request, unless aborted in
    its turn, appends its reply or its error. *)
Theorem second_submission_cancels_first
    (w : World) (c1 : nat) (mode1 : string) (contentOverride : option string)
    (later : list Event) (o : Outcome ChatReply) :
  Reachable w ->
  In (ChatFlight c1 mode1) (inflight w) ->
  aborted c1 w = false ->
  blank (nullish contentOverride (pendingInput (ui w))) = false ->
  let c2 := controllers w in
  let mode2 := currentModeId (ui w) in
  let w2 := handleSubmit contentOverride w in
  let w3 := run later w2 in
  (exists payload,
      effects w2 = (effects w ++ [Abort c1; Send (ChatCall c2 payload)])%list)
  /\ c1 <> c2
  /\ aborted c1 w3 = true
  /\ (In (ChatFlight c1 mode1) (inflight w3) ->
      messages (ui (step (ChatSettled c1 o) w3))
      = (messages (ui w3)
         ++ [stamp w3 system ("Gemini live agent error: " ++ abortMessage) mode1])%list)
  /\ (In (ChatFlight c2 mode2) (inflight w3) ->
      aborted c2 w3 = false ->
      (forall r, o = Resolved r ->
         exists planned,
           messages (ui (step (ChatSettled c2 o) w3))
           = (messages (ui w3) ++ stamp w3 assistant (reply r) mode2 :: planned)%list
           /\ forall m, In m planned ->
                 role m = system /\ plan r = Some (content m))
      /\ (forall e, thrown o = Some e ->
            messages (ui (step (ChatSettled c2 o) w3))
            = (messages (ui w3) ++ [stamp w3 system (describe e) mode2])%list)).
Proof.
  intros Hreach Hin1 Hlive1 Hblank. cbv zeta.
  pose proof (Reachable_Tidy w Hreach) as [Hknown _ Hlive].
  assert (Hpilot : In c1 (pilots (inflight w))) by (apply In_pilots; eauto).
  assert (Href : recorderAbortRef w = Some c1).
  { destruct (Hlive c1 Hpilot) as [H | H]; [exact H | congruence]. }
  assert (Hreach3 : Reachable (run later (handleSubmit contentOverride w))).
  { apply Reachable_run. exact (reach_step _ _ _ (Submit contentOverride) w Hreach). }
  pose proof (Reachable_Tidy _ Hreach3) as [_ Hunique _].
  assert (Haborted : aborted c1 (run later (handleSubmit contentOverride w)) = true).
  { apply aborted_run. rewrite (submit_issues contentOverride w Hblank).
    unfold aborted. cbn [effects]. rewrite Href, !existsb_app. simpl.
    rewrite Nat.eqb_refl. now rewrite orb_true_r. }
  set (w3 := run later (handleSubmit contentOverride w)) in *.
  split; [|split; [|split; [exact Haborted|split]]].
  - rewrite (submit_issues contentOverride w Hblank). cbn [effects].
    rewrite Href. eexists. reflexivity.
  - apply Hknown in Hpilot. lia.
  - intros Hin. pose proof (find_flight _ _ _ Hunique Hin) as Hfind.
    change (step (ChatSettled c1 o) w3) with (resumeSubmit c1 o w3).
    rewrite (settle_with_error _ _ _ _ _ Hfind (aborted_is_thrown c1 o w3 Haborted)).
    reflexivity.
  - intros Hin Hlive2. pose proof (find_flight _ _ _ Hunique Hin) as Hfind.
    change (step (ChatSettled (controllers w) o) w3)
      with (resumeSubmit (controllers w) o w3).
    assert (Hdelivered : delivered (controllers w) o w3 = o).
    { unfold Session.delivered. now rewrite Hlive2. }
    split.
    + intros r ->. rewrite (settle_with_reply _ _ _ _ _ Hfind Hdelivered).
      unfold Session.showReply.
      destruct (plan r) as [p|] eqn:Hplan; [destruct (truthy p)|].
      * eexists [_]. split.
        -- cbn. rewrite <- app_assoc. reflexivity.
        -- intros m [<- | []]. split; reflexivity.
      * exists []. split; [reflexivity | contradiction].
      * exists []. split; [reflexivity | contradiction].
    + intros e He. rewrite <- Hdelivered in He.
      now rewrite (settle_with_error _ _ _ _ _ Hfind He).
Qed.

End AnySession.

(** *** The run of two submissions *)

(** C7, as it is stated, fails. After [first] and [second] are submitted in
    a row the first request is aborted and still in flight; when it settles
    the history grows by the system message of its cancellation. *)
Lemma cancelled_request_writes_to_history :
  let settled :=
    Session.step Sample.randomUUID Sample.now Sample.abortMessage
      (ChatSettled 0 (Rejected (ErrorWith Sample.abortMessage))) Sample.afterSecond in
  In (ChatFlight 0 "research-navigator") (inflight Sample.afterSecond)
  /\ aborted 0 Sample.afterSecond = true
  /\ messages (ui settled)
     = (messages (ui Sample.afterSecond)
        ++ [ {| id := "uuid-2";
                role := system;
                content := "Gemini live agent error: signal is aborted without reason";
                createdAt := 1700000000002;
                modeId := "research-navigator" |} ])%list
  /\ messages (ui settled) <> messages (ui Sample.afterSecond).
Proof.
  cbv zeta. split; [now left|]. split; [reflexivity|].
  split; vm_compute; [reflexivity | discriminate].
Qed.

Lemma second_submission_cancels_first_witness :
  let w := Sample.afterFirst in
  let o : Outcome ChatReply := Resolved {| reply := "late"; plan := None |} in
  let w3 := Session.handleSubmit Sample.randomUUID Sample.now (Some "second") w in
  (exists payload, effects w3 = (effects w ++ [Abort 0; Send (ChatCall 1 payload)])%list)
  /\ aborted 0 w3 = true
  /\ messages (ui (Session.step Sample.randomUUID Sample.now Sample.abortMessage
                     (ChatSettled 0 o) w3))
     = (messages (ui w3)
        ++ [Session.stamp Sample.randomUUID Sample.now w3 system
              ("Gemini live agent error: " ++ Sample.abortMessage)
              "research-navigator"])%list.
Proof.
  cbv zeta.
  destruct (second_submission_cancels_first
              Sample.randomUUID Sample.now Sample.abortMessage
              Sample.afterFirst 0 "research-navigator" (Some "second") []
              (Resolved {| reply := "late"; plan := None |}))
    as (Heffects & _ & Haborted & Hfirst & _).
  - apply Reachable_run. apply reach_start.
  - now left.
  - reflexivity.
  - reflexivity.
  - split; [exact Heffects|]. split; [exact Haborted|].
    apply Hfirst. now left.
Defined.


Lemma blank_submit_changes_nothing_witness :
  let w := Session.update (setPendingInput "   ") Sample.afterFirst in
  Session.handleSubmit Sample.randomUUID Sample.now None w = w.
Proof.
  cbv zeta.
  apply (blank_submit_changes_nothing Sample.randomUUID Sample.now
           (Session.update (setPendingInput "   ") Sample.afterFirst)).
  reflexivity.
Defined.

Lemma design_transcript_is_the_last_six_witness :
  exists payload older recent,
    effects (handleDesignSynthesis Sample.afterSecond)
    = (effects Sample.afterSecond ++ [Send (DesignCall payload)])%list
    /\ messages (ui Sample.afterSecond) = (older ++ recent)%list
    /\ length recent = 2
    /\ Design.transcript payload = Some (map turnOf recent).
Proof.
  destruct (design_transcript_is_the_last_six Sample.afterSecond)
    as (payload & older & recent & He & Hm & Hl & Ht & _).
  - right. discriminate.
  - exists payload, older, recent. repeat split; assumption.
Defined.

(** The transcript is cut from the whole log: after a switch to a mode that
    has no message of its own the page shows nothing, and the design request
    still carries the two messages of the other mode. *)
Example transcript_ignores_the_current_mode :
  modeMessages (ui Sample.afterSwitch) = []
  /\ sent (effects (handleDesignSynthesis Sample.afterSwitch))
     = (sent (effects Sample.afterSwitch)
        ++ [DesignCall
              {| Design.modeId := Some "flow-coach";
                 Design.notes := Some "";
                 Design.transcript :=
                   Some [ {| Gateway.role := "user"; Gateway.content := "first" |};
                          {| Gateway.role := "user"; Gateway.content := "second" |} ] |}])%list.
Proof. split; vm_compute; reflexivity. Qed.

End SessionFacts.

(** ** The routes, beyond their answers to good requests *)

Module RouteFacts.

Import Js Json Gateway JsFacts.

Lemma blank_trimStart (s : string) : blank (trimStart s) = blank s.
Proof.
  induction s as [|c s IH]; simpl; [reflexivity|].
  destruct (isWhiteSpace c) eqn:Hc; simpl; [exact IH | now rewrite Hc].
Qed.

Lemma blank_trimEnd (s : string) : blank (trimEnd s) = blank s.
Proof.
  induction s as [|c s IH]; simpl; [reflexivity|].
  destruct (trimEnd s) as [|d kept] eqn:Hkept.
  - rewrite <- IH. destruct (isWhiteSpace c) eqn:Hc; simpl; now rewrite ?Hc.
  - cbn [blank]. now rewrite <- IH.
Qed.

Lemma blank_trim (s : string) : blank (trim s) = blank s.
Proof. unfold trim. now rewrite blank_trimEnd, blank_trimStart. Qed.

Lemma trimStart_firm (s : string) : trimStart (trimStart s) = trimStart s.
Proof.
  induction s as [|c s IH]; simpl; [reflexivity|].
  destruct (isWhiteSpace c) eqn:Hc; [exact IH | simpl; now rewrite Hc].
Qed.

Lemma trimEnd_solid (s : string) : trimEnd (trimEnd s) = trimEnd s.
Proof.
  induction s as [|c s IH]; simpl; [reflexivity|].
  destruct (trimEnd s) as [|d kept] eqn:Hkept.
  - destruct (isWhiteSpace c) eqn:Hc; simpl; now rewrite ?Hc.
  - cbn [trimEnd] in *. now rewrite IH.
Qed.

Lemma trimStart_trimEnd (s : string) :
  trimStart (trimEnd s) = trimEnd (trimStart s).
Proof.
  induction s as [|c s IH]; simpl; [reflexivity|].
  destruct (isWhiteSpace c) eqn:Hc.
  - rewrite <- IH. destruct (trimEnd s) as [|d kept] eqn:Hkept; simpl;
      rewrite ?Hc; reflexivity.
  - cbn [trimEnd]. destruct (trimEnd s); simpl; rewrite ?Hc; reflexivity.
Qed.

(** Trimming twice is trimming once. *)
Lemma trim_trim (s : string) : trim (trim s) = trim s.
Proof.
  unfold trim. now rewrite trimStart_trimEnd, trimStart_firm, trimEnd_solid.
Qed.


(** *** How often the upstream service is called *)



(** *** Upstream failures *)



(** Neither route catches anything: when the upstream service cannot be
    reached, or its ok response has a body that is not JSON, the handler
    throws and gives no answer of its own. *)
Theorem transport_failure_is_not_caught
    (JSON_parse : string -> option JsValue) (env : Env)
    (upstream : Call -> option Response)
    (chat : Chat.ChatRequest) (message : string) (design : Design.DesignRequest) :
  configured (GEMINI_API_KEY env) = true ->
  Chat.message chat = Some message ->
  blank message = false ->
  (forall call,
      upstream call = None
      \/ exists response,
           upstream call = Some response /\ ok response = true
           /\ bodyJson response = None) ->
  fst (run upstream (Chat.POST JSON_parse env (Some chat))) = None
  /\ fst (run upstream (Design.POST env (Some design))) = None.
Proof.
  intros Hkey Hmessage Hblank Hup. unfold Chat.POST, Design.POST.
  rewrite Hkey, Hmessage, truthy_trim, Hblank. simpl.
  split.
  - destruct (Hup (generateContent env (Chat.GEMINI_MODEL env)
                     (Chat.userPrompt chat message)
                     (JNumber 7 (-1)) (JNumber 9 (-1)) (JNumber 40 0)))
      as [-> | (response & -> & Hok & Hjson)]; [reflexivity|].
    now rewrite Hok, Hjson.
  - destruct (Hup (generateContent env (Design.MODEL env)
                     (Design.autopilotPrompt design)
                     (JNumber 6 (-1)) (JNumber 8 (-1)) (JNumber 32 0)))
      as [-> | (response & -> & Hok & Hjson)]; [reflexivity|].
    now rewrite Hok, Hjson.
Qed.

Lemma transport_failure_is_not_caught_witness :
  fst (run Scenario.unreachable (Chat.POST Json.parse Sample.keyed (Some Sample.chatting)))
  = None
  /\ fst (run Scenario.unreachable (Design.POST Sample.keyed (Some Sample.designing)))
     = None.
Proof.
  apply (transport_failure_is_not_caught Json.parse Sample.keyed Scenario.unreachable
           Sample.chatting "go on" Sample.designing); try reflexivity.
  intros call. now left.
Defined.

(** *** Where a reply comes from *)

(** The chat route answers with a reply only after one call that came back
    ok with a JSON body, and the answer is then the interpretation of the
    text extracted from that body: it has no reply of its own. *)
Theorem reply_comes_from_upstream
    (JSON_parse : string -> option JsValue) (env : Env)
    (upstream : Call -> option Response) (request : option Chat.ChatRequest)
    (reply : string) (plan : option string) (status : nat) :
  fst (run upstream (Chat.POST JSON_parse env request))
  = Some (json (ReplyBody reply plan) status) ->
  exists call response payload,
    snd (run upstream (Chat.POST JSON_parse env request)) = [call]
    /\ upstream call = Some response
    /\ ok response = true
    /\ bodyJson response = Some payload
    /\ Chat.respond JSON_parse (extractText payload) = json (ReplyBody reply plan) status.
Proof.
  unfold Chat.POST.
  destruct (negb (configured (GEMINI_API_KEY env))); [discriminate|].
  destruct request as [body|]; [|discriminate].
  destruct (Chat.message body) as [message|]; [|discriminate].
  destruct (negb (Js.truthy (trim message))); [discriminate|].
  simpl.
  destruct (upstream _) as [response|] eqn:Hup; [|discriminate].
  destruct (ok response) eqn:Hok; [|discriminate].
  destruct (bodyJson response) as [payload|] eqn:Hjson; [|discriminate].
  simpl. intros H. injection H as H.
  eexists _, response, payload. repeat split; eauto.
Qed.

Lemma reply_comes_from_upstream_witness :
  exists call response payload,
    snd (run Scenario.replying (Chat.POST Json.parse Sample.keyed (Some Sample.chatting)))
    = [call]
    /\ Scenario.replying call = Some response
    /\ ok response = true
    /\ bodyJson response = Some payload
    /\ Chat.respond Json.parse (extractText payload)
       = json (ReplyBody "Hello" (Some "- step one")) 200.
Proof.
  apply (reply_comes_from_upstream Json.parse Sample.keyed Scenario.replying
           (Some Sample.chatting) "Hello" (Some "- step one") 200).
  reflexivity.
Defined.

(** An ok upstream response without any text is no error for either route:
    the chat route answers with its placeholder, provided [JSON.parse]
    rejects the empty text, and the design route with an empty proposal. *)
Theorem wordless_upstream_is_no_error
    (JSON_parse : string -> option JsValue) (env : Env)
    (upstream : Call -> option Response)
    (chat : Chat.ChatRequest) (message : string) (design : Design.DesignRequest)
    (response : Response) (payload : GeminiResponse) :
  JSON_parse "" = None ->
  configured (GEMINI_API_KEY env) = true ->
  Chat.message chat = Some message ->
  blank message = false ->
  (forall call, upstream call = Some response) ->
  ok response = true ->
  bodyJson response = Some payload ->
  extractText payload = "" ->
  fst (run upstream (Chat.POST JSON_parse env (Some chat)))
  = Some (json (ReplyBody "Gemini did not return a message." None) 200)
  /\ fst (run upstream (Design.POST env (Some design)))
     = Some (json (ProposalBody "") 200).
Proof.
  intros Hparse Hkey Hmessage Hblank Hup Hok Hjson Htext.
  unfold Chat.POST, Design.POST.
  rewrite Hkey, Hmessage, truthy_trim, Hblank. simpl.
  rewrite !Hup, Hok, Hjson, Htext. simpl.
  unfold Chat.respond, Chat.safeJsonParse. now rewrite Hparse.
Qed.

Lemma wordless_upstream_is_no_error_witness :
  fst (run Scenario.wordless (Chat.POST Json.parse Sample.keyed (Some Sample.chatting)))
  = Some (json (ReplyBody "Gemini did not return a message." None) 200)
  /\ fst (run Scenario.wordless (Design.POST Sample.keyed (Some Sample.designing)))
     = Some (json (ProposalBody "") 200).
Proof.
  apply (wordless_upstream_is_no_error Json.parse Sample.keyed Scenario.wordless
           Sample.chatting "go on" Sample.designing
           (Sample.answering []) {| Gemini.candidates := Some [Sample.candidateOf []] |});
    reflexivity.
Defined.

(** *** Prompts without history *)



End RouteFacts.

(** ** The whole page *)

Module ConsoleFacts.

Import Js JsFacts Session Console.

Section AnyPage.

Variable randomUUID : nat -> string.
Variable now : nat -> Z.
Variable abortMessage : string.

Local Notation stamp := (Session.stamp randomUUID now).
Local Notation handleSubmit := (Session.handleSubmit randomUUID now).
Local Notation delivered := (Session.delivered abortMessage).
Local Notation showReply := (Session.showReply randomUUID now).
Local Notation resumeSubmit := (Session.resumeSubmit randomUUID now abortMessage).
Local Notation step := (Session.step randomUUID now abortMessage).
Local Notation spawned := (Console.spawned randomUUID).
Local Notation addMode := (Console.addMode randomUUID).
Local Notation addIntegration := (Console.addIntegration randomUUID).
Local Notation onresult := (Console.onresult randomUUID now).
Local Notation act := (Console.act randomUUID now abortMessage).
Local Notation play := (Console.play randomUUID now abortMessage).
Local Notation Via := (Console.Via randomUUID now abortMessage).
Local Notation Reached := (Console.Reached randomUUID now abortMessage).
Local Notation Stamped := (Console.Stamped randomUUID now).
Local Notation Named := (Console.Named randomUUID).

(** *** Every action is made of a few moves *)

Lemma Via_trans (a b c : World) : Via a b -> Via b c -> Via a c.
Proof.
  induction 1; intros Hbc; [exact Hbc | | | |].
  - eapply via_step; eauto.
  - apply via_mode; auto.
  - apply via_draw; auto.
  - eapply via_voices; eauto.
Qed.

Lemma via_event (e : Event) (w : World) :
  (forall mode, e <> ModeChosen mode) -> Via w (step e w).
Proof.
  intros H. apply (via_step _ _ _ e); [|apply via_here].
  intros mode He. now destruct (H mode).
Qed.

Lemma act_via (a : Action) (p : Page) : Via (world p) (world (act a p)).
Proof.
  destruct a; simpl.
  - apply (via_event (PendingInputChanged value)). discriminate.
  - apply (via_event (DesignNotesChanged value)). discriminate.
  - destruct (nth_error (modes (ui (world p))) index) as [mode|] eqn:Hnth;
      [|apply via_here].
    apply (via_step _ _ _ (ModeChosen (Mode.id mode))); [|apply via_here].
    intros m Hm. injection Hm as <-. apply in_map. eapply nth_error_In; eauto.
  - destruct (sendDisabled p); [apply via_here|].
    apply (via_event (Submit None)). discriminate.
  - apply (via_event (ChatSettled controller o)). discriminate.
  - destruct (designLoading (ui (world p))); [apply via_here|].
    apply (via_event DesignSynthesis). discriminate.
  - apply (via_event DesignSynthesis). discriminate.
  - apply (via_event (DesignSettled ticket o)). discriminate.
  - apply via_mode, via_here.
  - unfold Console.addIntegration.
    destruct (negb (truthy (trim (designNotes (ui (world p)))))); [apply via_here|].
    cbn [world].
    apply (via_step _ _ _ (DesignNotesChanged "")); [discriminate|].
    apply via_draw, via_here.
  - destruct (isSpeechReady p); [|apply via_here].
    unfold toggleListening.
    destruct (negb (recognitionRef p)); [apply via_here|].
    destruct (isListening p); apply via_here.
  - destruct (recognitionRef p); [|apply via_here].
    apply (via_event (PendingInputChanged "")). discriminate.
  - destruct (recognitionRef p); [|apply via_here].
    unfold Console.onresult. destruct (heard event) as [interim final].
    destruct (truthy (trim final)).
    + cbn [world onWorld call].
      apply (via_step _ _ _ (PendingInputChanged "")); [discriminate|].
      apply (via_event (Submit (Some (trim final)))). discriminate.
    + apply (via_event
               (PendingInputChanged (or_else interim (pendingInput (ui (world p)))))).
      discriminate.
  - destruct (recognitionRef p); apply via_here.
  - destruct (recognitionRef p); apply via_here.
  - destruct (onvoiceschanged p); [|apply via_here].
    apply (via_voices _ _ _ available), via_here.
Qed.

Lemma mount_via (hasEngine hasSynthesis : bool) (voices : list string) :
  Via home (world (mount hasEngine hasSynthesis voices)).
Proof.
  simpl. destruct (hasEngine && hasSynthesis); [|apply via_here].
  apply (via_voices _ _ _ voices), via_here.
Qed.

Lemma Reached_via (p : Page) : Reached p -> Via home (world p).
Proof.
  induction 1 as [hasEngine hasSynthesis voices | a p _ IH].
  - apply mount_via.
  - eapply Via_trans; [exact IH | apply act_via].
Qed.

Lemma play_via (actions : list Action) (p : Page) :
  Via (world p) (world (play actions p)).
Proof.
  revert p. induction actions as [|a actions IH]; intros p; simpl; [apply via_here|].
  eapply Via_trans; [apply act_via | apply IH].
Qed.

Lemma Reached_play (actions : list Action) (p : Page) :
  Reached p -> Reached (play actions p).
Proof.
  revert p. induction actions as [|a actions IH]; intros p H; simpl; [exact H|].
  apply IH. now constructor.
Qed.

(** What every move keeps is kept by every action. *)
Lemma Via_keeps (P : World -> Prop) :
  (forall e w,
      (forall mode, e = ModeChosen mode -> In mode (map Mode.id (modes (ui w)))) ->
      P w -> P (step e w)) ->
  (forall w, P w -> P (addMode w)) ->
  (forall w, P w -> P (drawId w)) ->
  (forall available w, P w -> P (handleVoices available w)) ->
  forall w w', Via w w' -> P w -> P w'.
Proof.
  intros Hstep Hmode Hdraw Hvoices w w' Hvia.
  induction Hvia; intros HP; auto.
Qed.

(** *** What one event of the session controller adds *)

(** Every event appends messages to the history and effects to the log, and
    nothing else happens to either; the messages are stamped with the next
    ids and clock readings, what is spoken is what the assistant said, and
    only a submission that sends creates a controller. *)
Lemma step_delta (e : Event) (w : World) :
  exists added logged,
    messages (ui (step e w)) = (messages (ui w) ++ added)%list
    /\ effects (step e w) = (effects w ++ logged)%list
    /\ uuids (step e w) = uuids w + length added
    /\ ticks (step e w) = ticks w + length added
    /\ map id added = map randomUUID (seq (uuids w) (length added))
    /\ map createdAt added = map now (seq (ticks w) (length added))
    /\ spoken logged = map content (filter (hasRole assistant) added)
    /\ modes (ui (step e w)) = modes (ui w)
    /\ ((controllers (step e w) = controllers w
         /\ recorderAbortRef (step e w) = recorderAbortRef w
         /\ launches logged = [] /\ abortions logged = []
         /\ filter (hasRole user) added = [])
        \/ (controllers (step e w) = S (controllers w)
            /\ recorderAbortRef (step e w) = Some (controllers w)
            /\ launches logged = [controllers w]
            /\ abortions logged = match recorderAbortRef w with
                                  | Some c => [c]
                                  | None => []
                                  end
            /\ length (filter (hasRole user) added) = 1)).
Proof.
  assert (Hquiet : forall w' : World,
    messages (ui w') = messages (ui w) -> effects w' = effects w ->
    uuids w' = uuids w -> ticks w' = ticks w -> modes (ui w') = modes (ui w) ->
    controllers w' = controllers w -> recorderAbortRef w' = recorderAbortRef w ->
    exists added logged,
      messages (ui w') = (messages (ui w) ++ added)%list
      /\ effects w' = (effects w ++ logged)%list
      /\ uuids w' = uuids w + length added
      /\ ticks w' = ticks w + length added
      /\ map id added = map randomUUID (seq (uuids w) (length added))
      /\ map createdAt added = map now (seq (ticks w) (length added))
      /\ spoken logged = map content (filter (hasRole assistant) added)
      /\ modes (ui w') = modes (ui w)
      /\ ((controllers w' = controllers w
           /\ recorderAbortRef w' = recorderAbortRef w
           /\ launches logged = [] /\ abortions logged = []
           /\ filter (hasRole user) added = [])
          \/ (controllers w' = S (controllers w)
              /\ recorderAbortRef w' = Some (controllers w)
              /\ launches logged = [controllers w]
              /\ abortions logged = match recorderAbortRef w with
                                    | Some c => [c]
                                    | None => []
                                    end
              /\ length (filter (hasRole user) added) = 1))).
  { intros w' Hm He Hu Ht Hmodes Hc Hr. exists [], [].
    rewrite !app_nil_r. simpl. rewrite !Nat.add_0_r.
    repeat split; try assumption. left. repeat split; assumption. }
  destruct e as [contentOverride | c o | | ticket o | value | mode | value]; simpl.
  - destruct (blank (nullish contentOverride (pendingInput (ui w)))) eqn:Hb.
    + rewrite SessionFacts.nothing_to_submit by exact Hb. now apply Hquiet.
    + rewrite SessionFacts.submit_issues by exact Hb. cbv zeta.
      eexists [_], _. cbn [ui messages setIsStreaming setPendingInput setMessages
                           effects uuids ticks controllers recorderAbortRef modes].
      split; [reflexivity|]. split; [reflexivity|].
      split; [simpl; lia|]. split; [simpl; lia|].
      split; [reflexivity|]. split; [reflexivity|].
      split; [destruct (recorderAbortRef w); reflexivity|].
      split; [reflexivity|]. right.
      repeat split; destruct (recorderAbortRef w); reflexivity.
  - unfold Session.resumeSubmit.
    destruct (find (isChatFlight c) (inflight w)) as [flight|]; [|now apply Hquiet].
    destruct (delivered c o w) as [e | statusText | e | r]; cbn [thrown].
    1-3: (eexists [_], []; rewrite app_nil_r; simpl;
          split; [reflexivity|]; split; [reflexivity|];
          split; [lia|]; split; [lia|];
          repeat split; try reflexivity; left; repeat split; reflexivity).
    unfold Session.showReply.
    destruct (plan r) as [p|]; [destruct (truthy p)|].
    + eexists [_; _], [_]. simpl.
      split; [now rewrite <- app_assoc|]. split; [reflexivity|].
      split; [lia|]. split; [lia|].
      repeat split; try reflexivity. left. repeat split; reflexivity.
    + eexists [_], [_]. simpl.
      split; [reflexivity|]. split; [reflexivity|].
      split; [lia|]. split; [lia|].
      repeat split; try reflexivity. left. repeat split; reflexivity.
    + eexists [_], [_]. simpl.
      split; [reflexivity|]. split; [reflexivity|].
      split; [lia|]. split; [lia|].
      repeat split; try reflexivity. left. repeat split; reflexivity.
  - unfold handleDesignSynthesis.
    destruct (negb _ && _); [now apply Hquiet|].
    eexists [], [_]. simpl. rewrite app_nil_r, !Nat.add_0_r.
    repeat split; try reflexivity. left. repeat split; reflexivity.
  - unfold resumeDesign.
    destruct (find (isDesignFlight ticket) (inflight w)); now apply Hquiet.
  - now apply Hquiet.
  - now apply Hquiet.
  - now apply Hquiet.
Qed.

(** *** Rising numbers *)

Lemma Rising_weaken (ks : list nat) (bound bound' : nat) :
  Rising ks bound -> bound <= bound' -> Rising ks bound'.
Proof.
  intros H Hle. destruct H; constructor; [assumption | lia].
Qed.

Lemma Rising_seq (ks : list nat) (bound count : nat) :
  Rising ks bound -> Rising (ks ++ seq bound count) (bound + count).
Proof.
  intros H. induction count as [|count IH].
  - rewrite app_nil_r, Nat.add_0_r. exact H.
  - rewrite seq_S, app_assoc. constructor; [exact IH | lia].
Qed.

Lemma Rising_below (ks : list nat) (bound : nat) :
  Rising ks bound -> forall k, In k ks -> k < bound.
Proof.
  induction 1 as [|ks k bound _ IH Hk]; intros k' Hin; [contradiction|].
  apply in_app_or in Hin as [Hin | [<- | []]]; [|exact Hk].
  apply IH in Hin. lia.
Qed.

Lemma Rising_NoDup (ks : list nat) (bound : nat) : Rising ks bound -> NoDup ks.
Proof.
  induction 1 as [|ks k bound H IH Hk]; [constructor|].
  apply NoDup_app; [exact IH | repeat constructor; auto |].
  intros k' Hin [<- | []]. apply (Rising_below _ _ H) in Hin. lia.
Qed.

Lemma StronglySorted_snoc {A : Type} (R : A -> A -> Prop) (l : list A) (x : A) :
  StronglySorted R l -> Forall (fun y => R y x) l -> StronglySorted R (l ++ [x]).
Proof.
  induction 1 as [|y l Hl IH Hy]; intros Hall; simpl.
  - repeat constructor.
  - inversion Hall as [|? ? Hyx Hrest]; subst. constructor; [auto|].
    apply Forall_app. split; [exact Hy | repeat constructor; exact Hyx].
Qed.

Lemma Rising_sorted (ks : list nat) (bound : nat) :
  Rising ks bound -> StronglySorted lt ks.
Proof.
  induction 1 as [|ks k bound H IH Hk]; [constructor|].
  apply StronglySorted_snoc; [exact IH|].
  apply Forall_forall. intros k' Hin. exact (Rising_below _ _ H _ Hin).
Qed.

(** *** The ledgers of the effects *)

Lemma launches_app (a b : list Effect) :
  launches (a ++ b) = (launches a ++ launches b)%list.
Proof.
  induction a as [|[c | [c payload | payload] | u] a IH]; simpl;
    rewrite ?IH; reflexivity.
Qed.

Lemma abortions_app (a b : list Effect) :
  abortions (a ++ b) = (abortions a ++ abortions b)%list.
Proof.
  induction a as [|[c | r | u] a IH]; simpl; rewrite ?IH; reflexivity.
Qed.

Lemma spoken_app (a b : list Effect) :
  spoken (a ++ b) = (spoken a ++ spoken b)%list.
Proof.
  induction a as [|[c | r | u] a IH]; simpl; rewrite ?IH; reflexivity.
Qed.

Lemma aborted_abortions (c : nat) (w : World) :
  aborted c w = true <-> In c (abortions (effects w)).
Proof.
  unfold aborted. induction (effects w) as [|[c' | r | u] log IH]; simpl.
  - split; [discriminate | contradiction].
  - rewrite orb_true_iff, IH, Nat.eqb_eq. tauto.
  - exact IH.
  - exact IH.
Qed.

(** *** The books are kept by every move *)

Lemma Ledger_step (e : Event) (w : World) : Ledger w -> Ledger (step e w).
Proof.
  intros (Hlaunch & Habort & Href & Huser & Hspoken).
  destruct (step_delta e w)
    as (added & logged & Hm & He & _ & _ & _ & _ & Hs & _ & Hkind).
  unfold Ledger. rewrite Hm, He.
  rewrite launches_app, abortions_app, spoken_app, !filter_app, map_app, length_app.
  rewrite Hlaunch, Habort, Hspoken, Huser, Hs.
  destruct Hkind as [(Hc & Hr & Hl & Ha & Hu) | (Hc & Hr & Hl & Ha & Hu)];
    rewrite Hc, Hr, Hl, Ha, ?Hu.
  - rewrite !app_nil_r. simpl. rewrite Nat.add_0_r. repeat split. exact Href.
  - rewrite Href, (seq_S (controllers w) 0). simpl.
    repeat split; try lia.
    destruct (controllers w) as [|latest]; [reflexivity|].
    cbn [pred]. now rewrite (seq_S latest 0).
Qed.

Lemma Ledger_same (w w' : World) :
  effects w' = effects w -> messages (ui w') = messages (ui w) ->
  controllers w' = controllers w -> recorderAbortRef w' = recorderAbortRef w ->
  Ledger w -> Ledger w'.
Proof.
  unfold Ledger. intros -> -> -> ->. auto.
Qed.

Lemma Stamped_step (e : Event) (w : World) : Stamped w -> Stamped (step e w).
Proof.
  intros (ks & ts & Hid & Hks & Hat & Hts).
  destruct (step_delta e w)
    as (added & logged & Hm & _ & Hu & Ht & Hids & Hats & _).
  exists (ks ++ seq (uuids w) (length added))%list,
         (ts ++ seq (ticks w) (length added))%list.
  rewrite Hm, Hu, Ht, !map_app, Hid, Hat, Hids, Hats.
  repeat split; now apply Rising_seq.
Qed.

Lemma Stamped_same (w w' : World) :
  messages (ui w') = messages (ui w) -> uuids w <= uuids w' -> ticks w <= ticks w' ->
  Stamped w -> Stamped w'.
Proof.
  intros Hm Hu Ht (ks & ts & Hid & Hks & Hat & Hts).
  exists ks, ts. rewrite Hm.
  repeat split; try assumption; eapply Rising_weaken; eauto.
Qed.

Lemma Named_step (e : Event) (w : World) : Named w -> Named (step e w).
Proof.
  intros (ks & Hid & Hks).
  destruct (step_delta e w)
    as (added & logged & _ & _ & Hu & _ & _ & _ & _ & Hmodes & _).
  exists ks. rewrite Hmodes. split; [exact Hid|].
  eapply Rising_weaken; [exact Hks | lia].
Qed.

Lemma modes_handleVoices (available : list string) (w : World) :
  map Mode.id (modes (ui (handleVoices available w))) = map Mode.id (modes (ui w)).
Proof.
  simpl. rewrite map_map. reflexivity.
Qed.

Lemma Named_moves :
  (forall w, Named w -> Named (addMode w))
  /\ (forall w, Named w -> Named (drawId w))
  /\ (forall available w, Named w -> Named (handleVoices available w)).
Proof.
  repeat split.
  - intros w (ks & Hid & Hks). exists (ks ++ [uuids w])%list. split.
    + cbn [Console.addMode drawId update ui modes setDesignNotes setDesignOutput
             setCurrentModeId setModes].
      rewrite !map_app, Hid, <- app_assoc. reflexivity.
    + constructor; [exact Hks | simpl; lia].
  - intros w (ks & Hid & Hks). exists ks. split; [exact Hid|].
    eapply Rising_weaken; [exact Hks | simpl; lia].
  - intros available w (ks & Hid & Hks). exists ks.
    rewrite modes_handleVoices. split; [exact Hid | exact Hks].
Qed.

Lemma chat_flight_found (c : nat) (flight : Flight) (flights : list Flight) :
  find (isChatFlight c) flights = Some flight ->
  exists mode, flight = ChatFlight c mode /\ In (ChatFlight c mode) flights.
Proof.
  intros H. apply find_some in H as [Hin Hc].
  destruct flight as [c' mode | t]; simpl in Hc; [|discriminate].
  apply Nat.eqb_eq in Hc as ->. eauto.
Qed.

Lemma Streaming_step (e : Event) (w : World) : Streaming w -> Streaming (step e w).
Proof.
  unfold Streaming. intros HS.
  destruct e as [contentOverride | c o | | ticket o | value | mode | value]; simpl.
  - destruct (blank (nullish contentOverride (pendingInput (ui w)))) eqn:Hb.
    + now rewrite SessionFacts.nothing_to_submit by exact Hb.
    + rewrite SessionFacts.submit_issues by exact Hb. cbv zeta.
      cbn [controllers inflight pred]. intros _. split; [lia|].
      eexists. apply in_or_app. right. now left.
  - unfold Session.resumeSubmit.
    destruct (find (isChatFlight c) (inflight w)); [|exact HS].
    cbn [update ui isStreaming setIsStreaming]. discriminate.
  - unfold handleDesignSynthesis. destruct (negb _ && _); [exact HS|].
    cbn [update ui isStreaming setDesignLoading controllers inflight].
    intros H. destruct (HS H) as [Hc [mode Hin]]. split; [exact Hc|].
    exists mode. apply in_or_app. now left.
  - unfold resumeDesign.
    destruct (find (isDesignFlight ticket) (inflight w)); [|exact HS].
    cbn [update land ui isStreaming setDesignLoading setDesignOutput controllers inflight].
    intros H. destruct (HS H) as [Hc [mode Hin]]. split; [exact Hc|].
    exists mode. unfold landed. apply filter_In. now split.
  - exact HS.
  - exact HS.
  - exact HS.
Qed.

Lemma Housed_step (e : Event) (w : World) :
  (forall mode, e = ModeChosen mode -> In mode (map Mode.id (modes (ui w)))) ->
  Housed w -> Housed (step e w).
Proof.
  unfold Housed. cbv zeta. intros Hchosen (Hcurrent & Hmessages & Hflights).
  assert (Hbuild : forall w' : World,
    modes (ui w') = modes (ui w) ->
    In (currentModeId (ui w')) (map Mode.id (modes (ui w))) ->
    (forall m, In m (messages (ui w')) ->
       In m (messages (ui w)) \/ In (modeId m) (map Mode.id (modes (ui w)))) ->
    (forall c mode, In (ChatFlight c mode) (inflight w') ->
       In (ChatFlight c mode) (inflight w)
       \/ In mode (map Mode.id (modes (ui w)))) ->
    In (currentModeId (ui w')) (map Mode.id (modes (ui w')))
    /\ (forall m, In m (messages (ui w')) -> In (modeId m) (map Mode.id (modes (ui w'))))
    /\ (forall c mode, In (ChatFlight c mode) (inflight w') ->
          In mode (map Mode.id (modes (ui w'))))).
  { intros w' -> Hc Hm Hf. split; [exact Hc|]. split.
    - intros m Hin. destruct (Hm m Hin); auto.
    - intros c mode Hin. destruct (Hf c mode Hin); eauto. }
  destruct e as [contentOverride | c o | | ticket o | value | mode | value]; simpl.
  - destruct (blank (nullish contentOverride (pendingInput (ui w)))) eqn:Hb.
    + rewrite SessionFacts.nothing_to_submit by exact Hb. auto.
    + rewrite SessionFacts.submit_issues by exact Hb. cbv zeta.
      apply Hbuild; cbn [ui modes currentModeId messages inflight setIsStreaming
                            setPendingInput setMessages]; auto.
      * intros m Hin. apply in_app_or in Hin as [Hin | [<- | []]]; auto.
      * intros c mode Hin. apply in_app_or in Hin as [Hin | [Heq | []]]; auto.
        injection Heq as _ <-. auto.
  - unfold Session.resumeSubmit.
    destruct (find (isChatFlight c) (inflight w)) as [flight|] eqn:Hfind; [|auto].
    destruct (chat_flight_found _ _ _ Hfind) as (mode & -> & Hin).
    pose proof (Hflights c mode Hin) as Hmode. cbn [startedIn].
    assert (Hland : forall c' mode',
              In (ChatFlight c' mode') (landed (isChatFlight c) (inflight w)) ->
              In (ChatFlight c' mode') (inflight w)
              \/ In mode' (map Mode.id (modes (ui w)))).
    { intros c' mode' H. left. unfold landed in H. now apply filter_In in H. }
    destruct (delivered c o w) as [e | statusText | e | r]; cbn [thrown].
    1-3: (apply Hbuild; [reflexivity | exact Hcurrent | | exact Hland];
          intros m Hm; simpl in Hm;
          apply in_app_or in Hm as [Hm | [<- | []]]; auto).
    unfold Session.showReply.
    destruct (plan r) as [p|]; [destruct (truthy p)|];
      (apply Hbuild; [reflexivity | exact Hcurrent | | exact Hland];
       intros m Hm; simpl in Hm;
       repeat (apply in_app_or in Hm as [Hm | [<- | []]]; auto)).
  - unfold handleDesignSynthesis. destruct (negb _ && _); [auto|].
    apply Hbuild; cbn [update ui modes currentModeId messages inflight
                          setDesignLoading]; auto.
    intros c mode Hin. apply in_app_or in Hin as [Hin | [Heq | []]]; auto.
    discriminate.
  - unfold resumeDesign.
    destruct (find (isDesignFlight ticket) (inflight w)); [|auto].
    apply Hbuild; cbn [update land ui modes currentModeId messages inflight
                          setDesignLoading setDesignOutput]; auto.
    intros c mode Hin. left. unfold landed in Hin. now apply filter_In in Hin.
  - auto.
  - apply (Hbuild (update (setCurrentModeId mode) w)); simpl; auto.
  - auto.
Qed.

Lemma Housed_moves :
  (forall w, Housed w -> Housed (addMode w))
  /\ (forall w, Housed w -> Housed (drawId w))
  /\ (forall available w, Housed w -> Housed (handleVoices available w)).
Proof.
  unfold Housed. cbv zeta. repeat split.
  - cbn [Console.addMode drawId update ui modes currentModeId
           setDesignNotes setDesignOutput setCurrentModeId setModes].
    rewrite map_app. apply in_or_app. right. now left.
  - destruct H as (_ & Hm & _). intros m Hin.
    cbn [Console.addMode drawId update ui modes messages
           setDesignNotes setDesignOutput setCurrentModeId setModes] in *.
    rewrite map_app. apply in_or_app. left. auto.
  - destruct H as (_ & _ & Hf). intros c mode Hin.
    cbn [Console.addMode drawId update ui modes inflight
           setDesignNotes setDesignOutput setCurrentModeId setModes] in *.
    rewrite map_app. apply in_or_app. left. eauto.
  - apply H.
  - apply H.
  - apply H.
  - rewrite modes_handleVoices. apply H.
  - rewrite modes_handleVoices. apply H.
  - rewrite modes_handleVoices. apply H.
Qed.

(** The books of a page that was reached: the bookkeeping of the chat path,
    the ledgers, the stamps, the names of the modes, the streaming flag and
    the modes referred to. *)
Lemma Reached_books (p : Page) :
  Reached p ->
  Tidy (world p) /\ Ledger (world p) /\ Stamped (world p) /\ Named (world p)
  /\ Streaming (world p) /\ Housed (world p).
Proof.
  intros H. apply Reached_via in H.
  eapply (Via_keeps (fun w => Tidy w /\ Ledger w /\ Stamped w /\ Named w
                             /\ Streaming w /\ Housed w));
    [ | | | | exact H | ].
  - intros e w Hchosen (Ht & Hl & Hs & Hn & Hf & Hh).
    refine (conj _ (conj _ (conj _ (conj _ (conj _ _))))).
    + now apply SessionFacts.Tidy_step.
    + now apply Ledger_step.
    + now apply Stamped_step.
    + now apply Named_step.
    + now apply Streaming_step.
    + now apply Housed_step.
  - intros w (Ht & Hl & Hs & Hn & Hf & Hh).
    refine (conj _ (conj _ (conj _ (conj _ (conj _ _))))).
    + destruct Ht as [H1 H2 H3]. now split.
    + now apply (Ledger_same w).
    + apply (Stamped_same w); simpl; auto; lia.
    + now apply (proj1 Named_moves).
    + exact Hf.
    + now apply (proj1 Housed_moves).
  - intros w (Ht & Hl & Hs & Hn & Hf & Hh).
    refine (conj _ (conj _ (conj _ (conj _ (conj _ _))))).
    + destruct Ht as [H1 H2 H3]. now split.
    + now apply (Ledger_same w).
    + apply (Stamped_same w); simpl; auto; lia.
    + now apply (proj1 (proj2 Named_moves)).
    + exact Hf.
    + now apply (proj1 (proj2 Housed_moves)).
  - intros available w (Ht & Hl & Hs & Hn & Hf & Hh).
    refine (conj _ (conj _ (conj _ (conj _ (conj _ _))))).
    + destruct Ht as [H1 H2 H3]. now split.
    + now apply (Ledger_same w).
    + apply (Stamped_same w); simpl; auto; lia.
    + now apply (proj2 (proj2 Named_moves)).
    + exact Hf.
    + now apply (proj2 (proj2 Housed_moves)).
  - refine (conj _ (conj _ (conj _ (conj _ (conj _ _))))).
    + apply (SessionFacts.Tidy_start defaultModes).
    + repeat split.
    + exists [], []. repeat split; constructor.
    + exists []. split; [reflexivity | constructor].
    + discriminate.
    + repeat split; [simpl; auto | contradiction | contradiction].
Qed.

Lemma NoDup_map_fresh {A B : Type} (f : A -> B) (l : list A) :
  (forall i j, f i = f j -> i = j) -> NoDup l -> NoDup (map f l).
Proof.
  intros Hf. induction 1 as [|x l Hx _ IH]; simpl; constructor; [|exact IH].
  intros Hin. apply in_map_iff in Hin as (y & Hy & Hin).
  apply Hf in Hy. now subst y.
Qed.

(** *** What holds on every page that is reached *)

(** As long as [crypto.randomUUID] never repeats, no two messages of the
    history share an id. *)
Theorem message_ids_never_repeat (p : Page) :
  Reached p ->
  (forall i j, randomUUID i = randomUUID j -> i = j) ->
  NoDup (map id (messages (ui (world p)))).
Proof.
  intros Hreached Hfresh.
  destruct (Reached_books p Hreached) as (_ & _ & (ks & ts & Hid & Hks & _) & _).
  rewrite Hid. apply NoDup_map_fresh; [exact Hfresh|].
  exact (Rising_NoDup _ _ Hks).
Qed.

(** As long as the clock never goes back, the history is in the order of
    its timestamps. *)
Theorem history_is_chronological (p : Page) :
  Reached p ->
  (forall i j, i <= j -> (now i <= now j)%Z) ->
  StronglySorted Z.le (map createdAt (messages (ui (world p)))).
Proof.
  intros Hreached Hclock.
  destruct (Reached_books p Hreached) as (_ & _ & (ks & ts & _ & _ & Hat & Hts) & _).
  rewrite Hat. clear Hat. apply Rising_sorted in Hts.
  induction Hts as [|t ts Hts IH Hall]; simpl; [constructor|].
  constructor; [exact IH|].
  apply Forall_map. eapply Forall_impl; [|exact Hall].
  intros t' Hlt. apply Hclock. simpl in Hlt. lia.
Qed.

(** As long as [crypto.randomUUID] never repeats and never yields the id of
    a built-in mode, no two modes share an id. *)
Theorem mode_ids_never_repeat (p : Page) :
  Reached p ->
  (forall i j, randomUUID i = randomUUID j -> i = j) ->
  (forall k, ~ In (randomUUID k) (map Mode.id defaultModes)) ->
  NoDup (map Mode.id (modes (ui (world p)))).
Proof.
  intros Hreached Hfresh Hnew.
  destruct (Reached_books p Hreached) as (_ & _ & _ & (ks & Hid & Hks) & _).
  rewrite Hid. apply NoDup_app.
  - repeat constructor; simpl; intuition discriminate.
  - apply NoDup_map_fresh; [exact Hfresh|].
    exact (Rising_NoDup _ _ Hks).
  - intros name Hdefault Hdrawn. apply in_map_iff in Hdrawn as (k & <- & _).
    exact (Hnew k Hdefault).
Qed.

(** The chat requests are sent under the controllers 0, 1, 2, ... in this
    order, and a controller is aborted exactly when a later request was
    sent: the latest request is never aborted, every earlier one is. *)
Theorem all_but_the_latest_request_are_aborted (p : Page) :
  Reached p ->
  launches (effects (world p)) = seq 0 (controllers (world p))
  /\ forall c, aborted c (world p) = true <-> S c < controllers (world p).
Proof.
  intros Hreached.
  destruct (Reached_books p Hreached) as (_ & (Hlaunch & Habort & _) & _).
  split; [exact Hlaunch|].
  intros c. rewrite aborted_abortions, Habort, in_seq. lia.
Qed.

(** Every chat request sent has its user message in the history, and the
    history has no other user message. *)
Theorem one_user_message_per_request (p : Page) :
  Reached p ->
  length (filter (hasRole user) (messages (ui (world p))))
  = length (launches (effects (world p))).
Proof.
  intros Hreached.
  destruct (Reached_books p Hreached) as (_ & (Hlaunch & _ & _ & Huser & _) & _).
  now rewrite Hlaunch, length_seq.
Qed.


(** While the streaming flag is set, the latest request is in flight, its
    controller is the one in the ref, and its signal is not aborted. *)
Theorem streaming_means_a_live_request (p : Page) :
  Reached p ->
  isStreaming (ui (world p)) = true ->
  exists c mode,
    In (ChatFlight c mode) (inflight (world p))
    /\ recorderAbortRef (world p) = Some c
    /\ aborted c (world p) = false.
Proof.
  intros Hreached Hflag.
  destruct (Reached_books p Hreached)
    as (_ & (_ & Habort & Href & _) & _ & _ & Hstreaming & _).
  destruct (Hstreaming Hflag) as (Hsome & mode & Hin).
  destruct (controllers (world p)) as [|latest] eqn:Hc; [lia|].
  exists latest, mode. simpl in Hin. repeat split; [exact Hin | exact Href |].
  destruct (aborted latest (world p)) eqn:Ha; [|reflexivity].
  apply aborted_abortions in Ha. rewrite Habort, in_seq in Ha. simpl in Ha. lia.
Qed.

Lemma mode_is_found (ms : list Mode.Mode) (name : string) :
  In name (map Mode.id ms) ->
  exists mode,
    find (fun mode => String.eqb (Mode.id mode) name) ms = Some mode
    /\ Mode.id mode = name /\ In mode ms.
Proof.
  intros Hin.
  destruct (find (fun mode => String.eqb (Mode.id mode) name) ms) as [mode|] eqn:Hfind.
  - apply find_some in Hfind as [Hm Heq]. apply String.eqb_eq in Heq. eauto.
  - apply in_map_iff in Hin as (mode & <- & Hm).
    pose proof (find_none _ _ Hfind mode Hm) as Hno. simpl in Hno.
    now rewrite String.eqb_refl in Hno.
Qed.

(** The current mode is always one of the modes of the page, so that
    [currentMode] never falls back to the first mode, and every message
    was created in a mode that the page still has. *)
Theorem current_mode_is_one_of_the_modes (p : Page) :
  Reached p ->
  (exists mode,
      currentMode (ui (world p)) = Some mode
      /\ Mode.id mode = currentModeId (ui (world p))
      /\ In mode (modes (ui (world p))))
  /\ forall m, In m (messages (ui (world p))) ->
       exists mode, In mode (modes (ui (world p))) /\ Mode.id mode = modeId m.
Proof.
  intros Hreached.
  destruct (Reached_books p Hreached) as (_ & _ & _ & _ & _ & (Hc & Hm & _)).
  split.
  - destruct (mode_is_found _ _ Hc) as (mode & Hfind & Hid & Hin).
    exists mode. unfold currentMode. now rewrite Hfind.
  - intros m Hin. apply Hm in Hin. apply in_map_iff in Hin as (mode & Hid & Hmode).
    eauto.
Qed.

(** *** What no action undoes *)

Lemma modes_step (e : Event) (w : World) : modes (ui (step e w)) = modes (ui w).
Proof.
  destruct (step_delta e w) as (added & logged & H). apply H.
Qed.

(** The history only grows: whatever is done on the page, the messages
    there were stay where they are, unchanged, and new ones come after
    them. *)
Theorem history_only_grows (actions : list Action) (p : Page) :
  exists added,
    messages (ui (world (play actions p)))
    = (messages (ui (world p)) ++ added)%list.
Proof.
  eapply (Via_keeps
            (fun w => exists added,
                 messages (ui w) = (messages (ui (world p)) ++ added)%list));
    [ | | | | apply play_via | ].
  - intros e w _ [added Hw].
    destruct (step_delta e w) as (more & logged & Hm & _).
    exists (added ++ more)%list. now rewrite Hm, Hw, app_assoc.
  - intros w H. exact H.
  - intros w H. exact H.
  - intros available w H. exact H.
  - exists []. now rewrite app_nil_r.
Qed.

(** Modes are never removed, reordered or rewritten: whatever is done on
    the page, the modes there were stay in place, the same but for a voice
    that may have been bound to them, and new ones come after them. *)
Theorem modes_only_grow (actions : list Action) (p : Page) :
  exists more,
    map (fun mode => withVoice mode None) (modes (ui (world (play actions p))))
    = (map (fun mode => withVoice mode None) (modes (ui (world p))) ++ more)%list.
Proof.
  eapply (Via_keeps
            (fun w => exists more,
                 map (fun mode => withVoice mode None) (modes (ui w))
                 = (map (fun mode => withVoice mode None) (modes (ui (world p)))
                    ++ more)%list));
    [ | | | | apply play_via | ].
  - intros e w _ H. now rewrite modes_step.
  - intros w [more Hw].
    exists (more ++ [withVoice (spawned w) None])%list.
    cbn [Console.addMode drawId update ui modes setDesignNotes setDesignOutput
           setCurrentModeId setModes].
    now rewrite map_app, Hw, app_assoc.
  - intros w H. exact H.
  - intros available w [more Hw]. exists more. rewrite <- Hw.
    cbn [handleVoices update ui modes setModes]. rewrite map_map. reflexivity.
  - exists []. now rewrite app_nil_r.
Qed.

(** *** The streaming flag and the Send button *)

(** When a message is submitted while an earlier request is in flight, the
    settlement of the earlier, aborted request clears the streaming flag
    although the new request is still in flight and not aborted: from then
    on the Send button is enabled again as soon as something is typed. *)
Theorem flag_is_cleared_while_a_request_is_in_flight
    (p : Page) (c1 : nat) (mode1 text : string) (o : Outcome ChatReply) :
  Reached p ->
  In (ChatFlight c1 mode1) (inflight (world p)) ->
  aborted c1 (world p) = false ->
  blank text = false ->
  let w := world p in
  let w3 := step (ChatSettled c1 o) (handleSubmit (Some text) w) in
  isStreaming (ui w3) = false
  /\ In (ChatFlight (controllers w) (currentModeId (ui w))) (inflight w3)
  /\ recorderAbortRef w3 = Some (controllers w)
  /\ aborted (controllers w) w3 = false.
Proof.
  intros Hreached Hin Hlive Hblank. cbv zeta.
  destruct (Reached_books p Hreached) as (Htidy & (_ & Habort & _) & _).
  pose proof (SessionFacts.Tidy_step randomUUID now abortMessage
                (Submit (Some text)) _ Htidy) as Htidy2.
  destruct Htidy as [Hknown _ Hone].
  assert (Hpilot : In c1 (pilots (inflight (world p))))
    by (apply SessionFacts.In_pilots; eauto).
  assert (Href : recorderAbortRef (world p) = Some c1).
  { destruct (Hone c1 Hpilot) as [H | H]; [exact H | congruence]. }
  apply Hknown in Hpilot.
  assert (Hfresh : aborted (controllers (world p)) (world p) = false).
  { destruct (aborted (controllers (world p)) (world p)) eqn:Ha; [|reflexivity].
    apply aborted_abortions in Ha. rewrite Habort, in_seq in Ha. lia. }
  simpl in Htidy2. destruct Htidy2 as [_ Hunique2 _].
  change (step (ChatSettled c1 o) (handleSubmit (Some text) (world p)))
    with (resumeSubmit c1 o (handleSubmit (Some text) (world p))).
  revert Hunique2.
  rewrite (SessionFacts.submit_issues randomUUID now (Some text) (world p) Hblank).
  cbv zeta. set (w2 := Build_World _ _ _ _ _ _ _). intros Hunique2.
  assert (Hin2 : In (ChatFlight c1 mode1) (inflight w2))
    by (subst w2; cbn [inflight]; apply in_or_app; now left).
  assert (Haborted : aborted c1 w2 = true).
  { subst w2. unfold aborted. cbn [effects]. rewrite Href, !existsb_app. simpl.
    rewrite Nat.eqb_refl. now rewrite orb_true_r. }
  rewrite (SessionFacts.settle_with_error randomUUID now abortMessage
             c1 mode1 o (ErrorWith abortMessage) w2
             (SessionFacts.find_flight _ _ _ Hunique2 Hin2)
             (SessionFacts.aborted_is_thrown abortMessage c1 o w2 Haborted)).
  split; [reflexivity|]. split; [|split; [reflexivity|]].
  - cbn [update Session.append land inflight]. subst w2. cbn [inflight].
    apply SessionFacts.landed_keeps_others; [lia|].
    apply in_or_app. right. now left.
  - unfold aborted. cbn [update Session.append land effects]. subst w2.
    cbn [effects]. rewrite Href, !existsb_app.
    unfold aborted in Hfresh. rewrite Hfresh. simpl.
    destruct (Nat.eqb_spec c1 (controllers (world p))); [lia | reflexivity].
Qed.

(** Clicking Send twice in a row sends once: the first click clears the
    input and sets the streaming flag, which disables the button. *)
Theorem send_twice_sends_once (p : Page) :
  act SendClicked (act SendClicked p) = act SendClicked p.
Proof.
  simpl. destruct (sendDisabled p) eqn:Hd; [now rewrite Hd|].
  assert (Hb : blank (nullish None (pendingInput (ui (world p)))) = false).
  { unfold sendDisabled in Hd. apply orb_false_iff in Hd as [Hd _].
    rewrite truthy_trim, negb_involutive in Hd. exact Hd. }
  assert (Hd' : sendDisabled (onWorld (handleSubmit None) p) = true).
  { unfold sendDisabled. cbn [onWorld world].
    rewrite (SessionFacts.submit_issues randomUUID now None (world p) Hb).
    reflexivity. }
  now rewrite Hd'.
Qed.

(** *** Spawning a mode *)

Lemma sliceFirst_prefix (count : nat) (s : string) :
  String.length (sliceFirst count s) = Nat.min count (String.length s)
  /\ exists rest, s = sliceFirst count s ++ rest.
Proof.
  unfold sliceFirst. revert s. induction count as [|count IH]; intros s.
  - destruct s; simpl; split; eauto.
  - destruct s as [|c s]; simpl; [split; [reflexivity | now exists ""]|].
    destruct (IH s) as [Hlen [rest Hrest]]. split; [now rewrite Hlen|].
    exists rest. now rewrite <- Hrest.
Qed.

Lemma find_new_mode (ms : list Mode.Mode) (mode : Mode.Mode) :
  ~ In (Mode.id mode) (map Mode.id ms) ->
  find (fun m => String.eqb (Mode.id m) (Mode.id mode)) (ms ++ [mode]) = Some mode.
Proof.
  induction ms as [|m ms IH]; simpl; intros Hnew.
  - now rewrite String.eqb_refl.
  - destruct (String.eqb_spec (Mode.id m) (Mode.id mode)) as [Heq | _].
    + exfalso. apply Hnew. now left.
    + apply IH. intros Hin. apply Hnew. now right.
Qed.

(** Auto-Spawn on a page that was reached, as long as [crypto.randomUUID]
    never repeats and never yields the id of a built-in mode: the new mode
    is appended and is the current mode from then on, it has the voice of
    the mode that was current, its description is the first 220 code units
    of the summary at most, and the proposal and the notes are cleared. *)
Theorem spawned_mode_becomes_current (p : Page) :
  Reached p ->
  (forall i j, randomUUID i = randomUUID j -> i = j) ->
  (forall k, ~ In (randomUUID k) (map Mode.id defaultModes)) ->
  let w := world p in
  let w' := world (act AutoSpawnClicked p) in
  modes (ui w') = (modes (ui w) ++ [spawned w])%list
  /\ currentMode (ui w') = Some (spawned w)
  /\ option_map Mode.voice (currentMode (ui w)) = Some (Mode.voice (spawned w))
  /\ String.length (Mode.description (spawned w)) <= 220
  /\ (exists rest, summaryOf (ui w) = Mode.description (spawned w) ++ rest)
  /\ designOutput (ui w') = None
  /\ designNotes (ui w') = ""
  /\ messages (ui w') = messages (ui w).
Proof.
  intros Hreached Hfresh Hnew. cbv zeta.
  destruct (Reached_books p Hreached)
    as (_ & _ & _ & (ks & Hid & Hks) & _ & (Hcurrent & _)).
  assert (Hunused : ~ In (Mode.id (spawned (world p)))
                       (map Mode.id (modes (ui (world p))))).
  { rewrite Hid. cbn [Console.spawned Mode.id]. intros Hin.
    apply in_app_or in Hin as [Hin | Hin]; [exact (Hnew _ Hin)|].
    apply in_map_iff in Hin as (k & Hk & Hin). apply Hfresh in Hk. subst k.
    apply (Rising_below _ _ Hks) in Hin. lia. }
  destruct (sliceFirst_prefix 220 (summaryOf (ui (world p)))) as [Hlen Hrest].
  split; [reflexivity|]. split; [|split; [|split; [|split]]].
  - unfold currentMode.
    cbn [act onWorld world Console.addMode drawId update ui modes currentModeId
           setDesignNotes setDesignOutput setCurrentModeId setModes].
    now rewrite (find_new_mode _ _ Hunused).
  - destruct (mode_is_found _ _ Hcurrent) as (mode & Hfind & _).
    unfold currentMode. cbn [Console.spawned Mode.voice]. unfold currentMode.
    now rewrite Hfind.
  - cbn [Console.spawned Mode.description]. rewrite Hlen. lia.
  - exact Hrest.
  - repeat split; reflexivity.
Qed.

(** What Auto-Spawn builds a mode from after a design call has ended is
    what that call left in the proposal, never the notes: the proposal, the
    fixed phrase when the proposal is empty, or the text of the error when
    the call failed. *)
Theorem spawn_after_a_design_call
    (ticket : nat) (o : Outcome string) (w : World) :
  In (DesignFlight ticket) (inflight w) ->
  let summary := summaryOf (ui (resumeDesign ticket o w)) in
  (forall proposal, o = Resolved proposal ->
     summary = or_else proposal DEFAULT_SUMMARY)
  /\ (forall statusText, o = NotOk statusText ->
       summary = "Design call failed: " ++ statusText)
  /\ (forall message, o = Rejected (ErrorWith message) \/ o = BodyRejected (ErrorWith message) ->
       summary = or_else message DEFAULT_SUMMARY)
  /\ (o = Rejected NotAnError \/ o = BodyRejected NotAnError ->
       summary = "Unknown error").
Proof.
  intros Hin. cbv zeta. unfold resumeDesign.
  destruct (find (isDesignFlight ticket) (inflight w)) as [flight|] eqn:Hfind.
  2: { pose proof (find_none _ _ Hfind _ Hin) as Hno. simpl in Hno.
       now rewrite Nat.eqb_refl in Hno. }
  repeat split.
  - intros proposal ->. reflexivity.
  - intros statusText ->. reflexivity.
  - intros message [-> | ->]; reflexivity.
  - intros [-> | ->]; reflexivity.
Qed.

(** *** Connectors *)

Lemma connectors_step (a : Action) (p : Page) :
  integrations (act a p) = integrations p
  \/ exists draft,
       integrations (act a p) = draft :: integrations p
       /\ Integration.status draft = Integration.draft
       /\ Integration.description draft = trim (designNotes (ui (world p)))
       /\ blank (designNotes (ui (world p))) = false.
Proof.
  destruct a; simpl; try (now left).
  - destruct (nth_error (modes (ui (world p))) index); now left.
  - destruct (sendDisabled p); now left.
  - destruct (designLoading (ui (world p))); now left.
  - unfold Console.addIntegration. rewrite truthy_trim, negb_involutive.
    destruct (blank (designNotes (ui (world p)))) eqn:Hb; [now left|].
    right. eexists. cbn [integrations]. repeat split; reflexivity.
  - destruct (isSpeechReady p); [|now left]. unfold toggleListening.
    destruct (negb (recognitionRef p)); [now left|].
    destruct (isListening p); now left.
  - destruct (recognitionRef p); now left.
  - destruct (recognitionRef p); [|now left]. unfold Console.onresult.
    destruct (heard event) as [interim final].
    destruct (truthy (trim final)); now left.
  - destruct (recognitionRef p); now left.
  - destruct (recognitionRef p); now left.
  - destruct (onvoiceschanged p); now left.
Qed.

(** The connectors of a page that was reached are drafts on top of the two
    built-in ones: nothing is removed or changed, and every connector that
    was added has the status draft and the trimmed notes it was drafted
    from, which are not empty, as its description. *)
Theorem connectors_are_drafts_on_top (p : Page) :
  Reached p ->
  exists drafts,
    integrations p = (drafts ++ defaultIntegrations)%list
    /\ Forall (fun connector =>
                 Integration.status connector = Integration.draft
                 /\ Integration.description connector <> ""
                 /\ trim (Integration.description connector)
                    = Integration.description connector)
              drafts.
Proof.
  induction 1 as [hasEngine hasSynthesis voices | a p _ (drafts & Hp & Hall)].
  - exists []. split; [reflexivity | constructor].
  - destruct (connectors_step a p) as [-> | (draft & -> & Hs & Hd & Hb)].
    + eauto.
    + exists (draft :: drafts). rewrite Hp. split; [reflexivity|].
      constructor; [|exact Hall]. rewrite Hd. repeat split; [exact Hs | |].
      * intros Hempty. apply trim_empty in Hempty. congruence.
      * apply RouteFacts.trim_trim.
Qed.

(** The connector button drafts one connector from notes with something in
    them and clears the notes, so that a second click does nothing; with
    blank notes the first click does nothing either. *)
Theorem connector_twice_drafts_once (p : Page) :
  act ConnectorClicked (act ConnectorClicked p) = act ConnectorClicked p
  /\ (blank (designNotes (ui (world p))) = true -> act ConnectorClicked p = p)
  /\ (blank (designNotes (ui (world p))) = false ->
      length (integrations (act ConnectorClicked p)) = S (length (integrations p))
      /\ designNotes (ui (world (act ConnectorClicked p))) = "").
Proof.
  simpl. unfold Console.addIntegration. rewrite !truthy_trim, !negb_involutive.
  destruct (blank (designNotes (ui (world p)))) eqn:Hb.
  - rewrite ?truthy_trim, ?negb_involutive, ?Hb.
    split; [reflexivity | split; [intros _; reflexivity | discriminate]].
  - split; [reflexivity | split; [discriminate | intros _; split; reflexivity]].
Qed.

(** *** Voices *)

(** Voices are bound once: after the voices handler has run with at least
    one voice available, every mode has a voice, each one of the available
    voices or the one the mode had, and running the handler again, with
    whatever voices, changes nothing. *)
Theorem voices_are_bound_once (available later : list string) (w : World) :
  available <> [] ->
  handleVoices later (handleVoices available w) = handleVoices available w
  /\ Forall (fun mode =>
               exists voice,
                 Mode.voice mode = Some voice
                 /\ (In voice available
                     \/ In (Some voice) (map Mode.voice (modes (ui w)))))
            (modes (ui (handleVoices available w))).
Proof.
  intros Hsome.
  assert (Hpick : exists voice, pickVoice available = Some voice /\ In voice available).
  { unfold pickVoice.
    destruct (find _ available) as [voice|] eqn:Hfind.
    - apply find_some in Hfind as [Hin _]. eauto.
    - destruct available as [|voice rest]; [congruence|]. exists voice. simpl. auto. }
  destruct Hpick as (picked & Hpicked & Hin). split.
  - unfold handleVoices, update. cbn [ui recorderAbortRef controllers inflight
                                        effects uuids ticks].
    f_equal. unfold setModes. cbn [modes currentModeId messages pendingInput
                                      isStreaming designNotes designOutput designLoading].
    f_equal. rewrite map_map. apply map_ext. intros mode.
    cbn [withVoice Mode.voice]. rewrite Hpicked.
    destruct (Mode.voice mode); reflexivity.
  - cbn [handleVoices update ui modes setModes]. apply Forall_forall.
    intros bound Hbound. apply in_map_iff in Hbound as (mode & <- & Hmode).
    cbn [withVoice Mode.voice]. rewrite Hpicked.
    destruct (Mode.voice mode) as [voice|] eqn:Hvoice.
    + exists voice. split; [reflexivity|]. right. rewrite <- Hvoice. now apply in_map.
    + exists picked. auto.
Qed.

(** The voice that is bound is the first one whose name contains [female]
    in any case of the letters, and the first voice of all when there is
    none such. *)
Theorem female_voice_is_preferred (available : list string) (voice : string) :
  pickVoice available = Some voice ->
  exists before after,
    available = (before ++ voice :: after)%list
    /\ Forall (fun earlier => includes (toLowerCase earlier) "female" = false) before
    /\ (includes (toLowerCase voice) "female" = true
        \/ (before = []
            /\ Forall (fun other => includes (toLowerCase other) "female" = false)
                      after)).
Proof.
  unfold pickVoice.
  destruct (find _ available) as [found|] eqn:Hfind.
  - intros H. injection H as <-. revert Hfind.
    induction available as [|first rest IH]; simpl; [discriminate|].
    destruct (includes (toLowerCase first) "female") eqn:Hfirst.
    + intros H. injection H as <-. exists [], rest. repeat split; auto.
    + intros H. destruct (IH H) as (before & after & -> & Hbefore & Hvoice).
      exists (first :: before), after. repeat split; [constructor; auto|].
      destruct Hvoice as [Hvoice | [-> _]]; [now left|].
      left. apply find_some in H as [_ H]. exact H.
  - destruct available as [|first rest]; simpl; [discriminate|].
    intros H. injection H as <-. exists [], rest. repeat split; [constructor|].
    right. split; [reflexivity|]. apply Forall_forall. intros other Hin.
    exact (find_none _ _ Hfind other (or_intror Hin)).
Qed.

(** *** Speech capture *)

Lemma gather_from (rs : list SpeechResult) (interim final : string) :
  gather rs interim final
  = (interim
     ++ fold_right String.append ""
          (map (fun r => nullish (Gateway.first (alternatives r)) "")
               (filter (fun r => negb (isFinal r)) rs)),
     final
     ++ fold_right String.append ""
          (map (fun r => nullish (Gateway.first (alternatives r)) "" ++ " ")
               (filter isFinal rs))).
Proof.
  revert interim final. induction rs as [|r rs IH]; intros interim final; simpl.
  - now rewrite !append_empty_r.
  - destruct (isFinal r); simpl; rewrite IH, !append_assoc; reflexivity.
Qed.

(** The loop of [onresult] reads the results from [resultIndex] on and the
    first alternative of each: the interim text is the transcripts of the
    results that are not final, one after the other, and the final text the
    transcripts of the final ones, each followed by a space. *)
Theorem heard_is_what_the_results_say (event : SpeechEvent) :
  let fresh := skipn (resultIndex event) (results event) in
  let transcript r := match alternatives r with
                      | best :: _ => best
                      | [] => ""
                      end in
  heard event
  = (fold_right String.append ""
       (map transcript (filter (fun r => negb (isFinal r)) fresh)),
     fold_right String.append ""
       (map (fun r => transcript r ++ " ") (filter isFinal fresh))).
Proof.
  cbv zeta. unfold heard. rewrite gather_from. simpl. f_equal.
  - apply f_equal, map_ext. intros r. now destruct (alternatives r).
  - apply f_equal, map_ext. intros r. now destruct (alternatives r).
Qed.

(** A final transcript with something in it is submitted as if it had been
    typed and sent: the engine is stopped, the trimmed text becomes a user
    message and the message of one chat request, the input is cleared and
    the streaming flag set. *)
Theorem final_transcript_is_sent
    (event : SpeechEvent) (p : Page) (interim final : string) :
  recognitionRef p = true ->
  heard event = (interim, final) ->
  blank final = false ->
  let w := world p in
  let p' := act (EngineResult event) p in
  engine p' = (engine p ++ [Stop])%list
  /\ messages (ui (world p'))
     = (messages (ui w) ++ [stamp w user (trim final) (currentModeId (ui w))])%list
  /\ pendingInput (ui (world p')) = ""
  /\ isStreaming (ui (world p')) = true
  /\ exists payload,
       sent (effects (world p'))
       = (sent (effects w) ++ [ChatCall (controllers w) payload])%list
       /\ Chat.message payload = Some (trim final).
Proof.
  intros Href Hheard Hblank. cbv zeta. simpl. rewrite Href.
  unfold Console.onresult. rewrite Hheard, truthy_trim, Hblank. cbn [negb].
  cbn [onWorld call world engine].
  assert (Hb : blank (nullish (Some (trim final))
                        (pendingInput (ui (update (fun s => setPendingInput "" s)
                                             (world p))))) = false).
  { simpl. now rewrite RouteFacts.blank_trim. }
  rewrite (SessionFacts.submit_issues randomUUID now _ _ Hb). cbv zeta.
  cbn [nullish]. rewrite RouteFacts.trim_trim.
  cbn [ui messages pendingInput isStreaming setIsStreaming setPendingInput
         setMessages effects update controllers recorderAbortRef currentModeId].
  split; [reflexivity|]. split; [reflexivity|]. split; [reflexivity|].
  split; [reflexivity|].
  eexists. rewrite !SessionFacts.sent_app. split.
  - destruct (recorderAbortRef (world p)); simpl; reflexivity.
  - reflexivity.
Qed.

Lemma quiet_result
    (event : SpeechEvent) (p : Page) (interim final : string) :
  recognitionRef p = true ->
  heard event = (interim, final) ->
  blank final = true ->
  let p' := act (EngineResult event) p in
  p' = onWorld (update (setPendingInput
                          (if truthy interim then interim
                           else pendingInput (ui (world p))))) p
  /\ engine p' = engine p
  /\ messages (ui (world p')) = messages (ui (world p))
  /\ effects (world p') = effects (world p).
Proof.
  intros Href Hheard Hblank. cbv zeta. simpl. rewrite Href.
  unfold Console.onresult. rewrite Hheard, truthy_trim, Hblank. cbn [negb].
  repeat split.
Qed.

Lemma no_final_results (rs : list SpeechResult) :
  Forall (fun r => isFinal r = false) rs -> filter isFinal rs = [].
Proof.
  induction 1 as [|r rs Hr _ IH]; simpl; [reflexivity|]. now rewrite Hr.
Qed.

(** While the speaker is in the middle of a sentence, nothing is sent: an
    event whose results from [resultIndex] on are all interim leaves the
    engine running, the history and the requests as they are, and shows the
    interim text in the input, or leaves the input alone when that text is
    empty. *)
Theorem interim_results_send_nothing (event : SpeechEvent) (p : Page) :
  recognitionRef p = true ->
  Forall (fun r => isFinal r = false) (skipn (resultIndex event) (results event)) ->
  let p' := act (EngineResult event) p in
  engine p' = engine p
  /\ isListening p' = isListening p
  /\ messages (ui (world p')) = messages (ui (world p))
  /\ effects (world p') = effects (world p)
  /\ inflight (world p') = inflight (world p)
  /\ pendingInput (ui (world p'))
     = or_else (fold_right String.append ""
                  (map (fun r => nullish (Gateway.first (alternatives r)) "")
                       (skipn (resultIndex event) (results event))))
               (pendingInput (ui (world p))).
Proof.
  intros Href Hall. cbv zeta.
  assert (Hheard :
    heard event
    = (fold_right String.append ""
         (map (fun r => nullish (Gateway.first (alternatives r)) "")
              (skipn (resultIndex event) (results event))), "")).
  { unfold heard. rewrite gather_from, (no_final_results _ Hall). simpl.
    f_equal. f_equal. f_equal.
    clear Href. induction Hall as [|r rs Hr _ IH]; simpl; [reflexivity|].
    rewrite Hr. simpl. now rewrite IH. }
  destruct (quiet_result event p _ _ Href Hheard eq_refl) as (Hp & He & Hm & Hf).
  rewrite Hp. repeat split.
Qed.

(** *** A browser without speech recognition *)

Lemma flags_step (a : Action) (p : Page) :
  recognitionRef (act a p) = recognitionRef p
  /\ isSpeechReady (act a p) = isSpeechReady p
  /\ onvoiceschanged (act a p) = onvoiceschanged p.
Proof.
  destruct a; simpl; try (repeat split; reflexivity).
  - destruct (nth_error (modes (ui (world p))) index); repeat split.
  - destruct (sendDisabled p); repeat split.
  - destruct (designLoading (ui (world p))); repeat split.
  - unfold Console.addIntegration.
    destruct (negb (truthy (trim (designNotes (ui (world p)))))); repeat split.
  - destruct (isSpeechReady p) eqn:Hready; [|repeat split; auto].
    unfold toggleListening.
    destruct (negb (recognitionRef p)); [repeat split; auto|].
    destruct (isListening p); repeat split; auto.
  - destruct (recognitionRef p) eqn:Href; repeat split; auto.
  - destruct (recognitionRef p) eqn:Href; [|repeat split; auto].
    unfold Console.onresult. destruct (heard event) as [interim final].
    destruct (truthy (trim final)); repeat split; auto.
  - destruct (recognitionRef p) eqn:Href; repeat split; auto.
  - destruct (recognitionRef p) eqn:Href; repeat split; auto.
  - destruct (onvoiceschanged p) eqn:Hhooked; repeat split; auto.
Qed.

Lemma deaf_step (a : Action) (p : Page) :
  recognitionRef p = false -> isSpeechReady p = false -> onvoiceschanged p = false ->
  isListening (act a p) = isListening p
  /\ engine (act a p) = engine p
  /\ (modes (ui (world (act a p))) = modes (ui (world p))
      \/ modes (ui (world (act a p))) = (modes (ui (world p)) ++ [spawned (world p)])%list).
Proof.
  intros Href Hready Hhooked.
  destruct a; simpl; rewrite ?Href, ?Hready, ?Hhooked;
    try (repeat split; left; first [reflexivity | apply modes_step]).
  - destruct (nth_error (modes (ui (world p))) index); repeat split; now left.
  - destruct (sendDisabled p); repeat split; left;
      [reflexivity | apply (modes_step (Submit None))].
  - repeat split. left. apply (modes_step (ChatSettled controller o)).
  - destruct (designLoading (ui (world p))); repeat split; left;
      [reflexivity | apply (modes_step DesignSynthesis)].
  - repeat split. left. apply (modes_step DesignSynthesis).
  - repeat split. left. apply (modes_step (DesignSettled ticket o)).
  - repeat split. now right.
  - unfold Console.addIntegration.
    destruct (negb (truthy (trim (designNotes (ui (world p)))))); repeat split; now left.
Qed.

(** In a browser without speech recognition the mount effect returns before
    it installs anything: whatever is done on the page, the capture button
    stays disabled, the page never listens, no engine is called, and no
    mode ever gets a voice, the spawned ones included. *)
Theorem nothing_is_heard_or_voiced_without_recognition
    (hasSynthesis : bool) (voices : list string) (actions : list Action) :
  let p := play actions (mount false hasSynthesis voices) in
  isSpeechReady p = false
  /\ isListening p = false
  /\ engine p = []
  /\ Forall (fun mode => Mode.voice mode = None) (modes (ui (world p))).
Proof.
  cbv zeta.
  assert (Hkeep : forall p,
    (recognitionRef p = false /\ isSpeechReady p = false /\ onvoiceschanged p = false
     /\ isListening p = false /\ engine p = []
     /\ Forall (fun mode => Mode.voice mode = None) (modes (ui (world p)))) ->
    recognitionRef (play actions p) = false /\ isSpeechReady (play actions p) = false
    /\ onvoiceschanged (play actions p) = false
    /\ isListening (play actions p) = false /\ engine (play actions p) = []
    /\ Forall (fun mode => Mode.voice mode = None) (modes (ui (world (play actions p))))).
  { induction actions as [|a actions IH]; intros p H; [exact H|].
    simpl. apply IH. destruct H as (Href & Hready & Hhooked & Hl & He & Hv).
    destruct (flags_step a p) as (-> & -> & ->).
    destruct (deaf_step a p Href Hready Hhooked) as (-> & -> & Hmodes).
    repeat split; try assumption.
    destruct Hmodes as [-> | ->]; [exact Hv|].
    apply Forall_app. split; [exact Hv|]. constructor; [|constructor].
    cbn [Console.spawned Mode.voice]. unfold currentMode.
    destruct (find _ (modes (ui (world p)))) as [mode|] eqn:Hfind.
    - apply find_some in Hfind as [Hin _].
      rewrite Forall_forall in Hv. exact (Hv mode Hin).
    - destruct (modes (ui (world p))) as [|mode rest]; [reflexivity|].
      inversion Hv; subst. assumption. }
  destruct (Hkeep (mount false hasSynthesis voices)) as (_ & H1 & _ & H2 & H3 & H4).
  - repeat split. simpl. repeat constructor.
  - auto.
Qed.

(** *** From the page to the chat route *)


End AnyPage.

(** *** The sample session *)

Lemma tally_never_repeats (i j : nat) : Scenario.tally i = Scenario.tally j -> i = j.
Proof.
  revert j. induction i as [|i IH]; intros [|j]; simpl; try discriminate; auto.
  intros H. injection H as H. f_equal. auto.
Qed.

Lemma tally_is_no_builtin_mode (k : nat) :
  ~ In (Scenario.tally k) (map Mode.id defaultModes).
Proof.
  destruct k; simpl; intuition discriminate.
Qed.

Lemma message_ids_never_repeat_witness :
  NoDup (map id (messages (ui (world Scenario.crowded)))).
Proof.
  apply (message_ids_never_repeat Scenario.tally Sample.now Sample.abortMessage).
  - apply Reached_play, reached_mount.
  - exact tally_never_repeats.
Defined.

Lemma history_is_chronological_witness :
  StronglySorted Z.le (map createdAt (messages (ui (world Scenario.crowded)))).
Proof.
  apply (history_is_chronological Scenario.tally Sample.now Sample.abortMessage).
  - apply Reached_play, reached_mount.
  - intros i j Hij. unfold Sample.now. lia.
Defined.

Lemma mode_ids_never_repeat_witness :
  NoDup (map Mode.id (modes (ui (world Scenario.crowded)))).
Proof.
  apply (mode_ids_never_repeat Scenario.tally Sample.now Sample.abortMessage).
  - apply Reached_play, reached_mount.
  - exact tally_never_repeats.
  - exact tally_is_no_builtin_mode.
Defined.

Lemma all_but_the_latest_request_are_aborted_witness :
  launches (effects (world Scenario.crowded)) = seq 0 (controllers (world Scenario.crowded))
  /\ forall c, aborted c (world Scenario.crowded) = true
               <-> S c < controllers (world Scenario.crowded).
Proof.
  apply (all_but_the_latest_request_are_aborted
           Scenario.tally Sample.now Sample.abortMessage).
  apply Reached_play, reached_mount.
Defined.

Lemma one_user_message_per_request_witness :
  length (filter (hasRole user) (messages (ui (world Scenario.crowded))))
  = length (launches (effects (world Scenario.crowded))).
Proof.
  apply (one_user_message_per_request Scenario.tally Sample.now Sample.abortMessage).
  apply Reached_play, reached_mount.
Defined.


Lemma streaming_means_a_live_request_witness :
  exists c mode,
    In (ChatFlight c mode) (inflight (world Scenario.asked))
    /\ recorderAbortRef (world Scenario.asked) = Some c
    /\ aborted c (world Scenario.asked) = false.
Proof.
  apply (streaming_means_a_live_request
           Sample.randomUUID Sample.now Sample.abortMessage).
  - apply Reached_play, reached_mount.
  - reflexivity.
Defined.

Lemma current_mode_is_one_of_the_modes_witness :
  (exists mode,
      currentMode (ui (world Scenario.crowded)) = Some mode
      /\ Mode.id mode = currentModeId (ui (world Scenario.crowded))
      /\ In mode (modes (ui (world Scenario.crowded))))
  /\ forall m, In m (messages (ui (world Scenario.crowded))) ->
       exists mode,
         In mode (modes (ui (world Scenario.crowded))) /\ Mode.id mode = modeId m.
Proof.
  apply (current_mode_is_one_of_the_modes
           Scenario.tally Sample.now Sample.abortMessage).
  apply Reached_play, reached_mount.
Defined.

Lemma flag_is_cleared_while_a_request_is_in_flight_witness :
  let w := world Scenario.asked in
  let w3 := Session.step Sample.randomUUID Sample.now Sample.abortMessage
              (ChatSettled 0 (Rejected (ErrorWith Sample.abortMessage)))
              (Session.handleSubmit Sample.randomUUID Sample.now (Some "second") w) in
  isStreaming (ui w3) = false
  /\ In (ChatFlight (controllers w) (currentModeId (ui w))) (inflight w3)
  /\ recorderAbortRef w3 = Some (controllers w)
  /\ aborted (controllers w) w3 = false.
Proof.
  apply (flag_is_cleared_while_a_request_is_in_flight
           Sample.randomUUID Sample.now Sample.abortMessage
           Scenario.asked 0 "research-navigator" "second").
  - apply Reached_play, reached_mount.
  - now left.
  - reflexivity.
  - reflexivity.
Defined.

Lemma spawned_mode_becomes_current_witness :
  let w := world Scenario.voiced in
  let w' := world (Console.act Scenario.tally Sample.now Sample.abortMessage
                     AutoSpawnClicked Scenario.voiced) in
  modes (ui w') = (modes (ui w) ++ [Console.spawned Scenario.tally w])%list
  /\ currentMode (ui w') = Some (Console.spawned Scenario.tally w)
  /\ option_map Mode.voice (currentMode (ui w))
     = Some (Mode.voice (Console.spawned Scenario.tally w))
  /\ String.length (Mode.description (Console.spawned Scenario.tally w)) <= 220
  /\ (exists rest,
        summaryOf (ui w) = Mode.description (Console.spawned Scenario.tally w) ++ rest)
  /\ designOutput (ui w') = None
  /\ designNotes (ui w') = ""
  /\ messages (ui w') = messages (ui w).
Proof.
  apply (spawned_mode_becomes_current Scenario.tally Sample.now Sample.abortMessage
           Scenario.voiced).
  - apply reached_mount.
  - exact tally_never_repeats.
  - exact tally_is_no_builtin_mode.
Defined.

Lemma spawn_after_a_design_call_witness :
  summaryOf (ui (resumeDesign 0 (NotOk "Bad Gateway") (world Scenario.drafting)))
  = "Design call failed: Bad Gateway".
Proof.
  destruct (spawn_after_a_design_call 0 (NotOk "Bad Gateway") (world Scenario.drafting))
    as (_ & Hfailed & _).
  - now left.
  - now apply Hfailed.
Defined.

Lemma connectors_are_drafts_on_top_witness :
  exists drafts,
    integrations Scenario.crowded = (drafts ++ defaultIntegrations)%list
    /\ Forall (fun connector =>
                 Integration.status connector = Integration.draft
                 /\ Integration.description connector <> ""
                 /\ trim (Integration.description connector)
                    = Integration.description connector)
              drafts.
Proof.
  apply (connectors_are_drafts_on_top Scenario.tally Sample.now Sample.abortMessage).
  apply Reached_play, reached_mount.
Defined.

Lemma voices_are_bound_once_witness :
  handleVoices ["Zira"] (handleVoices ["Alex"] home) = handleVoices ["Alex"] home
  /\ Forall (fun mode =>
               exists voice,
                 Mode.voice mode = Some voice
                 /\ (In voice ["Alex"]
                     \/ In (Some voice) (map Mode.voice (modes (ui home)))))
            (modes (ui (handleVoices ["Alex"] home))).
Proof.
  apply (voices_are_bound_once ["Alex"] ["Zira"] home). discriminate.
Defined.

Lemma female_voice_is_preferred_witness :
  exists before after,
    ["Alex"; "Google UK English Female"]
    = (before ++ "Google UK English Female" :: after)%list
    /\ Forall (fun earlier => includes (toLowerCase earlier) "female" = false) before
    /\ (includes (toLowerCase "Google UK English Female") "female" = true
        \/ (before = []
            /\ Forall (fun other => includes (toLowerCase other) "female" = false)
                      after)).
Proof.
  apply (female_voice_is_preferred ["Alex"; "Google UK English Female"]).
  reflexivity.
Defined.

Lemma final_transcript_is_sent_witness :
  let w := world Scenario.voiced in
  let p' := Scenario.act (EngineResult Scenario.dictation) Scenario.voiced in
  engine p' = (engine Scenario.voiced ++ [Stop])%list
  /\ messages (ui (world p'))
     = (messages (ui w)
        ++ [Session.stamp Sample.randomUUID Sample.now w user (trim " book a room ")
              (currentModeId (ui w))])%list
  /\ pendingInput (ui (world p')) = ""
  /\ isStreaming (ui (world p')) = true
  /\ exists payload,
       sent (effects (world p'))
       = (sent (effects w) ++ [ChatCall (controllers w) payload])%list
       /\ Chat.message payload = Some (trim " book a room ").
Proof.
  apply (final_transcript_is_sent Sample.randomUUID Sample.now Sample.abortMessage
           Scenario.dictation Scenario.voiced "" " book a room ");
    reflexivity.
Defined.

Lemma interim_results_send_nothing_witness :
  let p' := Scenario.act (EngineResult Scenario.murmur) Scenario.voiced in
  engine p' = engine Scenario.voiced
  /\ isListening p' = isListening Scenario.voiced
  /\ messages (ui (world p')) = messages (ui (world Scenario.voiced))
  /\ effects (world p') = effects (world Scenario.voiced)
  /\ inflight (world p') = inflight (world Scenario.voiced)
  /\ pendingInput (ui (world p')) = "book a".
Proof.
  apply (interim_results_send_nothing
           Sample.randomUUID Sample.now Sample.abortMessage
           Scenario.murmur Scenario.voiced).
  - reflexivity.
  - constructor; [reflexivity | constructor].
Defined.


End ConsoleFacts.
